(** * real-estate-analyzer: the normalization and analytics core of [app.py]

    A shallow embedding of [process_data] (with its local helpers
    [parse_roc_year] and [calc_age]) and of [analyze_best_range], and the
    properties of them that the specification states.

    Conventions.
    - A Python [str] is the list of its Unicode code points ([pystr]), so
      [len] and slicing count characters, not bytes.
    - A text cell of the table is [option pystr]: [None] is pandas' missing
      value (NaN) in a column read with [dtype=str].
    - A [float64] is a [spec_float] at precision 53 and exponent bound 1024,
      the Standard Library's executable specification of IEEE 754 binary64.
    - Python's [int] is [Z].
    - A DataFrame is the list of its rows; a column operation is a [map] and
      a boolean-mask selection is a [filter].
    - pandas and numpy functions whose result the source does not determine
      ([pd.to_numeric] on a text cell, [Series.quantile], the order
      [sort_values] gives to equal counts) are Section variables. *)

From Stdlib Require Import ZArith NArith List Bool Lia Ascii String.
From Stdlib Require Import Sorted Permutation.
From Stdlib Require Import QArith Qround Qminmax Qpower Lqa.
From Stdlib Require Import Floats.
Import ListNotations.

Open Scope Z_scope.

(* ------------------------------------------------------------------ *)
(** ** Python strings *)

Module PyStr.

(** A string is its sequence of code points. *)
Definition pystr : Type := list N.

(** An ASCII literal as a [pystr]. *)
Definition lit (s : string) : pystr := map N_of_ascii (list_ascii_of_string s).

Definition eqb (a b : pystr) : bool :=
  if list_eq_dec N.eq_dec a b then true else false.

(** [len(s) >= n] and friends are stated on [List.length]. *)

(** [s[:-4]]: everything but the last four characters (empty when there
    are at most four). *)
Definition drop_last4 (s : pystr) : pystr :=
  firstn (List.length s - 4)%nat s.

Fixpoint starts_with (pat s : pystr) : bool :=
  match pat, s with
  | [], _ => true
  | _ :: _, [] => false
  | p :: pat', c :: s' => N.eqb p c && starts_with pat' s'
  end.

(** [pat in s], which is what [Series.str.contains(pat)] computes on one
    cell when [pat] has no regular-expression metacharacter. *)
Fixpoint contains (pat s : pystr) : bool :=
  starts_with pat s ||
  match s with
  | [] => false
  | _ :: s' => contains pat s'
  end.

(** The white space [int] skips on both sides: the ASCII blanks, and the
    space characters outside ASCII. *)
Definition is_space (c : N) : bool :=
  ((9 <=? c) && (c <=? 13) || (c =? 32)
   || (c =? 133) || (c =? 160) || (c =? 5760)
   || (8192 <=? c) && (c <=? 8202)
   || (c =? 8232) || (c =? 8233) || (c =? 8239) || (c =? 8287)
   || (c =? 12288))%N.

(** Value of an ASCII decimal digit. *)
Definition digit_val (c : N) : option Z :=
  if ((48 <=? c) && (c <=? 57))%N then Some (Z.of_N c - 48) else None.

Definition underscore : N := 95.
Definition plus_sign : N := 43.
Definition minus_sign : N := 45.

Fixpoint lstrip (s : pystr) : pystr :=
  match s with
  | c :: s' => if is_space c then lstrip s' else s
  | [] => []
  end.

(** Digits after a first digit: more digits, each optionally preceded by
    one underscore.  Returns the value read and what is left. *)
Fixpoint scan_digits (acc : Z) (s : pystr) : Z * pystr :=
  match s with
  | [] => (acc, [])
  | c :: s' =>
      match digit_val c with
      | Some d => scan_digits (10 * acc + d) s'
      | None =>
          if (c =? underscore)%N then
            match s' with
            | d :: s'' =>
                match digit_val d with
                | Some v => scan_digits (10 * acc + v) s''
                | None => (acc, s)
                end
            | [] => (acc, s)
            end
          else (acc, s)
      end
  end.

Definition unsigned_int (s : pystr) : option Z :=
  match s with
  | c :: s' =>
      match digit_val c with
      | Some d =>
          let '(v, rest) := scan_digits d s' in
          match lstrip rest with
          | [] => Some v
          | _ :: _ => None
          end
      | None => None
      end
  | [] => None
  end.

(** [int(s)] for a string, base ten: surrounding white space, an optional
    sign, digits with single underscores between them.  [None] is
    [ValueError].  Decimal digits outside ASCII, which [int] also accepts,
    and the interpreter's limit on the number of digits are outside the
    model: such strings are reported as unparseable here. *)
Definition py_int (s : pystr) : option Z :=
  match lstrip s with
  | c :: s' =>
      if (c =? minus_sign)%N then option_map Z.opp (unsigned_int s')
      else if (c =? plus_sign)%N then unsigned_int s'
      else unsigned_int (c :: s')
  | [] => None
  end.

End PyStr.
Import PyStr.

(** A text cell: [None] when the value is missing. *)
Definition cell : Type := option pystr.

(* ------------------------------------------------------------------ *)
(** ** binary64 *)

Module F64.

Definition float : Type := spec_float.

Definition prec : Z := 53.
Definition emax : Z := 1024.

Definition mul : float -> float -> float := SFmul prec emax.
Definition div : float -> float -> float := SFdiv prec emax.
Definition eqb : float -> float -> bool := SFeqb.
Definition ltb : float -> float -> bool := SFltb.
Definition leb : float -> float -> bool := SFleb.

Definition nan : float := S754_nan.
Definition zero : float := S754_zero false.
Definition inf : float := S754_infinity false.
Definition neg_inf : float := S754_infinity true.

(** An integer converted to the nearest float. *)
Definition of_int (z : Z) : float := binary_normalize prec emax z 0 false.

(** The literals [0.3025] and [0.1] as Python reads them (the nearest
    binary64 values, written here in hexadecimal). *)
Definition lit_0_3025 : float := Eval vm_compute in Prim2SF 0x1.35c28f5c28f5cp-2%float.
Definition lit_0_1 : float := Eval vm_compute in Prim2SF 0x1.999999999999ap-4%float.

Definition isnan (x : float) : bool :=
  match x with S754_nan => true | _ => false end.

(** [np.isfinite]. *)
Definition isfinite (x : float) : bool :=
  match x with
  | S754_zero _ | S754_finite _ _ _ => true
  | S754_infinity _ | S754_nan => false
  end.

End F64.
Import F64.

(* ------------------------------------------------------------------ *)
(** ** Calendar: [parse_roc_year] and [calc_age] *)

(** [parse_roc_year(x)].  [pd.notna(x)] is the [Some] case; a [ValueError]
    of [int] is caught and gives [None]. *)
Definition parse_roc_year (x : cell) : option Z :=
  match x with
  | Some s =>
      if (6 <=? List.length s)%nat then
        match py_int (drop_last4 s) with
        | Some y => Some (y + 1911)
        | None => None
        end
      else None
  | None => None
  end.

(** [calc_age(row)] on the two columns it reads, [建築完成年月] and
    [交易年_西元]. *)
Definition calc_age (build_date : cell) (transaction_year : Z) : Z :=
  match build_date with
  | None => 0
  | Some s =>
      if (List.length s <? 3)%nat then 0
      else
        match py_int (drop_last4 s) with
        | Some y =>
            let build_year := y + 1911 in
            let age := transaction_year - build_year in
            Z.max age 0
        | None => 0
        end
  end.

(* ------------------------------------------------------------------ *)
(** ** The table and [process_data] *)

(** One row of the [*_lvr_land_A.csv] table after [df.iloc[1:]], on the
    columns [process_data] reads.  The two date columns are read with
    [dtype=str]; the others are text because of the English label row. The
    subject label is taken as present in every row. *)
Record RawRecord : Type := mkRaw {
  district : cell;        (* 鄉鎮市區 *)
  subject : pystr;        (* 交易標的 *)
  trade_date : cell;      (* 交易年月日 *)
  build_date : cell;      (* 建築完成年月 *)
  total_price_txt : cell;     (* 總價元 *)
  unit_price_sqm_txt : cell;  (* 單價元平方公尺 *)
  building_area_txt : cell;   (* 建物移轉總面積平方公尺 *)
  land_area_txt : cell        (* 土地移轉總面積平方公尺 *)
}.

(** The row after steps 3 and 4: the four numeric columns coerced in place
    and the three computed columns. *)
Record Derived : Type := mkDerived {
  raw : RawRecord;
  total_price : float;        (* 總價元 *)
  unit_price_sqm : float;     (* 單價元平方公尺 *)
  building_area : float;      (* 建物移轉總面積平方公尺 *)
  land_area : float;          (* 土地移轉總面積平方公尺 *)
  total_price_major : float;  (* 總價_萬元 *)
  area_units : float;         (* 面積_坪 *)
  unit_price : float          (* 單價_萬元_坪 *)
}.

(** The row with the year and age columns of step 5. *)
Record CleanRecord : Type := mkClean {
  derived : Derived;
  transaction_year : Z;   (* 交易年_西元 *)
  building_age : Z        (* 屋齡 *)
}.

Definition tok_fangdi : pystr := [0x623f; 0x5730]%N.  (* 房地 *)
Definition tok_jianwu : pystr := [0x5efa; 0x7269]%N.  (* 建物 *)
Definition tok_tudi : pystr := [0x571f; 0x5730]%N.    (* 土地 *)
Definition tok_all : pystr := [0x5168; 0x90e8]%N.     (* 全部 *)

(** The mask of [type_filter == "房地"]. *)
Definition keep_fangdi (label : pystr) : bool :=
  contains tok_fangdi label || contains tok_jianwu label.

(** The mask of [type_filter == "土地"]. *)
Definition keep_tudi (label : pystr) : bool :=
  contains tok_tudi label && negb (contains tok_fangdi label).

(** [.fillna(0)] on one value. *)
Definition fillna0 (x : float) : float := if isnan x then zero else x.

(** [.replace([np.inf, -np.inf], 0)] on one value. *)
Definition replace_inf (x : float) : float :=
  if F64.eqb x inf || F64.eqb x neg_inf then zero else x.

Definition sqm_to_ping : float := lit_0_3025.

(** [mask_land], on the value [面積_坪] has before the fallback. *)
Definition mask_land (area : float) : bool := F64.eqb area zero.

(** The [面積_坪] column, from the two coerced areas. *)
Definition calc_area_units (building land : float) : float :=
  let area := F64.mul building sqm_to_ping in
  if mask_land area then F64.mul land sqm_to_ping else area.

(** The [單價_萬元_坪] column, from [總價_萬元] and [面積_坪]. *)
Definition calc_unit_price (price_major area : float) : float :=
  fillna0 (replace_inf (F64.div price_major area)).

(** Step 6: the mask [(df['單價_萬元_坪'] > 0.1) & (df['單價_萬元_坪'] < 300)]. *)
Definition in_band (c : CleanRecord) : bool :=
  F64.ltb lit_0_1 (unit_price (derived c))
  && F64.ltb (unit_price (derived c)) (of_int 300).

Section Pipeline.

(** [pd.to_numeric(_, errors='coerce')] on one text cell: the number read,
    NaN when the text is not a number. *)
Variable to_numeric : pystr -> float.

Definition to_numeric_cell (c : cell) : float :=
  match c with
  | Some s => to_numeric s
  | None => nan
  end.

(** Step 3 on one cell. *)
Definition coerce (c : cell) : float := fillna0 (to_numeric_cell c).

(** Step 1. *)
Definition isin (district_list : list pystr) (r : RawRecord) : bool :=
  match district r with
  | Some d => existsb (PyStr.eqb d) district_list
  | None => false
  end.

Definition filter_district (district_list : list pystr) (df : list RawRecord)
  : list RawRecord :=
  match district_list with
  | [] => df
  | _ :: _ => filter (isin district_list) df
  end.

(** Step 2. *)
Definition filter_subject (type_filter : pystr) (df : list RawRecord)
  : list RawRecord :=
  if PyStr.eqb type_filter tok_fangdi then
    filter (fun r => keep_fangdi (subject r)) df
  else if PyStr.eqb type_filter tok_tudi then
    filter (fun r => keep_tudi (subject r)) df
  else df.

(** Steps 3 and 4 on one row. *)
Definition derive (r : RawRecord) : Derived :=
  let price := coerce (total_price_txt r) in
  let building := coerce (building_area_txt r) in
  let land := coerce (land_area_txt r) in
  let price_major := F64.div price (of_int 10000) in
  let area := calc_area_units building land in
  {| raw := r;
     total_price := price;
     unit_price_sqm := coerce (unit_price_sqm_txt r);
     building_area := building;
     land_area := land;
     total_price_major := price_major;
     area_units := area;
     unit_price := calc_unit_price price_major area |}.

(** Step 5, first half: the year column, then [dropna] on it. *)
Definition dropna_year (df : list Derived) : list (Derived * Z) :=
  flat_map
    (fun d =>
       match parse_roc_year (trade_date (raw d)) with
       | Some y => [(d, y)]
       | None => []
       end) df.

(** Step 5, second half: the age column. *)
Definition add_age (dy : Derived * Z) : CleanRecord :=
  let '(d, y) := dy in
  {| derived := d;
     transaction_year := y;
     building_age := calc_age (build_date (raw d)) y |}.

(** The table as it enters step 6. *)
Definition derived_records (district_list : list pystr) (type_filter : pystr)
    (df : list RawRecord) : list CleanRecord :=
  map add_age
    (dropna_year
       (map derive
          (filter_subject type_filter (filter_district district_list df)))).

(** [process_data], from the table on: the rows of the frame it returns. *)
Definition process_data (district_list : list pystr) (type_filter : pystr)
    (df : list RawRecord) : list CleanRecord :=
  filter in_band (derived_records district_list type_filter df).

(** What the two filters of steps 1 and 2 ask of one row. *)
Definition passes_filters (district_list : list pystr) (type_filter : pystr)
    (r : RawRecord) : bool :=
  match district_list with
  | [] => true
  | _ :: _ => isin district_list r
  end
  && (if PyStr.eqb type_filter tok_fangdi then keep_fangdi (subject r)
      else if PyStr.eqb type_filter tok_tudi then keep_tudi (subject r)
      else true).

(** Steps 3 to 5 on one row that passed the filters. *)
Definition clean_row (r : RawRecord) : option CleanRecord :=
  match parse_roc_year (trade_date r) with
  | Some y => Some (add_age (derive r, y))
  | None => None
  end.

End Pipeline.

(** [pd.to_numeric] on plain decimal integers (an optional minus sign, then
    ASCII digits only), NaN elsewhere: an instance of the parameter above on
    which the model can be run. *)
Definition to_numeric_digits (s : pystr) : float :=
  let digits_only (t : pystr) :=
    match t with
    | [] => false
    | _ :: _ => forallb (fun c => match digit_val c with Some _ => true | None => false end) t
    end in
  let body := match s with c :: s' => if (c =? minus_sign)%N then s' else s | [] => [] end in
  if digits_only body then
    match py_int s with
    | Some z => of_int z
    | None => nan
    end
  else nan.

(* ------------------------------------------------------------------ *)
(** ** [analyze_best_range]

    The column [df[col]] is the list of its values.  On the frames
    [process_data] returns the two columns analysed hold finite floats; a
    finite float is a rational number, and [min], [int], and the comparisons
    of [pd.cut] are exact on it, so a value is a [Q] here. *)

(** [int(x)] on a float: truncation toward zero. *)
Definition py_trunc (x : Q) : Z := Z.quot (Qnum x) (Z.pos (Qden x)).

(** [Series.min()]. *)
Definition col_min (col : list Q) : Q :=
  match col with
  | [] => 0%Q
  | x :: xs => fold_left Qmin xs x
  end.

(** [range(start, stop, step)] for a positive step, which is what both
    callers pass (5 and 100). *)
Definition range_len (start stop : Z) (step : positive) : nat :=
  if start <? stop then Z.to_nat ((stop - start - 1) / Z.pos step + 1) else 0%nat.

(** Member [i] of the range. *)
Definition break_at (start : Z) (step : positive) (i : nat) : Z :=
  start + Z.of_nat i * Z.pos step.

Definition py_range (start stop : Z) (step : positive) : list Z :=
  map (break_at start step) (seq 0 (range_len start stop step)).

(** A category of [pd.cut], named by the two consecutive breaks that bound
    its bin.  pandas closes it on the right; the [pd.Interval] it builds
    for the first category has its left end [10^-3] below the first break,
    where the others have their two breaks. *)
Record Interval : Type := mkInterval { lo : Z; hi : Z }.

Definition Qltb (x y : Q) : bool := negb (Qle_bool y x).

(** [bins.searchsorted(x, side='left')] on increasing breaks: how many
    breaks lie strictly below [x]. *)
Definition searchsorted_left (bins : list Z) (x : Q) : nat :=
  List.length (filter (fun b => Qltb (inject_Z b) x) bins).

(** The code [pd.cut(_, bins, include_lowest=True)] gives one value:
    [Some i] for the bin between breaks [i] and [i+1], [None] for NaN. *)
Definition cut_one (bins : list Z) (x : Q) : option nat :=
  match bins with
  | [] => None
  | b0 :: _ =>
      let ids := if Qeq_bool x (inject_Z b0) then 1%nat
                 else searchsorted_left bins x in
      if (ids =? List.length bins)%nat || (ids =? 0)%nat then None
      else Some (ids - 1)%nat
  end.

(** The categories, in order. *)
Definition categories (bins : list Z) : list Interval :=
  map (fun p => mkInterval (fst p) (snd p)) (combine bins (tl bins)).

(** The mask [codes == i] on one code. *)
Definition has_code (i : nat) (o : option nat) : bool :=
  match o with
  | Some j => (j =? i)%nat
  | None => false
  end.

(** [Categorical.value_counts()]: one count per category, in category
    order, NaN left out. *)
Definition category_counts (bins : list Z) (out : list (option nat))
  : list (Interval * nat) :=
  map (fun p => (snd p, List.length (filter (has_code (fst p)) out)))
      (combine (seq 0 (List.length (categories bins))) (categories bins)).

(** A code below [m], that is, one of the first [m] categories. *)
Definition code_below (m : nat) (o : option nat) : bool :=
  match o with
  | Some j => (j <? m)%nat
  | None => false
  end.

(** [first <= x <= last]. *)
Definition in_span (first last : Z) (x : Q) : bool :=
  Qle_bool (inject_Z first) x && Qle_bool x (inject_Z last).

(** A count series is in descending order: every count is at least each of
    the counts after it. *)
Definition count_ge (p q : Interval * nat) : Prop := (snd q <= snd p)%nat.

Definition descending (l : list (Interval * nat)) : Prop :=
  StronglySorted count_ge l.

Section IntervalAnalyzer.

(** [df[col].quantile(0.95)]. *)
Variable quantile95 : list Q -> Q.

(** [Series.sort_values(ascending=False)] on a series of counts. *)
Variable sort_values : list (Interval * nat) -> list (Interval * nat).

Definition lower (col : list Q) : Z := py_trunc (col_min col).

Definition upper (col : list Q) (step : positive) : Z :=
  let min_v := lower col in
  let max_v := py_trunc (quantile95 col) in
  if max_v <=? min_v then min_v + Z.pos step else max_v.

Definition bin_edges (col : list Q) (step : positive) : list Z :=
  py_range (lower col) (upper col step + Z.pos step) (step).

(** [out.value_counts()], which sorts by count. *)
Definition value_counts (bins : list Z) (out : list (option nat))
  : list (Interval * nat) :=
  sort_values (category_counts bins out).

Definition analyze_best_range (col : list Q) (step : positive)
  : option Interval * nat :=
  match col with
  | [] => (None, 0%nat)
  | _ :: _ =>
      let bins := bin_edges col step in
      let out := map (cut_one bins) col in
      let counts := sort_values (value_counts bins out) in
      match counts with
      | [] => (None, 0%nat)
      | (iv, n) :: _ => (Some iv, n)
      end
  end.

End IntervalAnalyzer.

(** Instances of the two parameters, to run the model: the quantile by
    linear interpolation between order statistics in exact arithmetic, and
    insertion sorts by descending count. *)
Fixpoint insert_asc (x : Q) (l : list Q) : list Q :=
  match l with
  | [] => [x]
  | y :: l' => if Qle_bool x y then x :: l else y :: insert_asc x l'
  end.

Definition quantile_linear (col : list Q) : Q :=
  let a := fold_right insert_asc [] col in
  let pos := (inject_Z (Z.of_nat (List.length a) - 1) * (95 # 100))%Q in
  let i := Qfloor pos in
  let frac := (pos - inject_Z i)%Q in
  let a_lo := nth (Z.to_nat i) a 0%Q in
  let a_hi := nth (Z.to_nat i + 1) a a_lo in
  (a_lo + (a_hi - a_lo) * frac)%Q.

Fixpoint insert_by (before : Interval * nat -> Interval * nat -> bool)
    (p : Interval * nat) (l : list (Interval * nat)) : list (Interval * nat) :=
  match l with
  | [] => [p]
  | q :: l' => if before p q then p :: l else q :: insert_by before p l'
  end.

Definition sort_by (before : Interval * nat -> Interval * nat -> bool)
    (l : list (Interval * nat)) : list (Interval * nat) :=
  fold_right (insert_by before) [] l.

(** Descending by count, equal counts in the order they come. *)
Definition before_stable (p q : Interval * nat) : bool := (snd q <=? snd p)%nat.

Definition sort_desc_stable : list (Interval * nat) -> list (Interval * nat) :=
  sort_by before_stable.

(* ------------------------------------------------------------------ *)
(** ** Rows used below *)

(** The literal [30.25]. *)
Definition lit_30_25 : float := Eval vm_compute in Prim2SF 0x1.e4p+4%float.

(** A row with another completion date. *)
Definition with_build_date (r : RawRecord) (b : cell) : RawRecord :=
  {| district := district r; subject := subject r;
     trade_date := trade_date r; build_date := b;
     total_price_txt := total_price_txt r;
     unit_price_sqm_txt := unit_price_sqm_txt r;
     building_area_txt := building_area_txt r;
     land_area_txt := land_area_txt r |}.

(** Sold on 1130615, completed on 1000101, 30000000 for 100 square metres. *)
Definition scenario_row : RawRecord :=
  {| district := None; subject := tok_fangdi;
     trade_date := Some (lit "1130615"); build_date := Some (lit "1000101");
     total_price_txt := Some (lit "30000000"); unit_price_sqm_txt := None;
     building_area_txt := Some (lit "100"); land_area_txt := None |}.

Definition scenario_clean : CleanRecord :=
  Eval vm_compute in add_age (derive to_numeric_digits scenario_row, 2024).

(** The same sale with the price written with a minus sign. *)
Definition negative_price_row : RawRecord :=
  {| district := None; subject := tok_fangdi;
     trade_date := Some (lit "1130615"); build_date := Some (lit "1000101");
     total_price_txt := Some (lit "-30000000"); unit_price_sqm_txt := None;
     building_area_txt := Some (lit "100"); land_area_txt := None |}.

(** The same sale with a completion date of five characters. *)
Definition short_completion_row : RawRecord :=
  with_build_date scenario_row (Some (lit "90101")).

(** The literal [60.5]. *)
Definition lit_60_5 : float := Eval vm_compute in Prim2SF 0x1.e4p+5%float.

(** A sale of land alone: building area 0 and 200 square metres of land. *)
Definition land_only_row : RawRecord :=
  {| district := None; subject := tok_tudi;
     trade_date := Some (lit "1130615"); build_date := None;
     total_price_txt := Some (lit "30000000"); unit_price_sqm_txt := None;
     building_area_txt := Some (lit "0"); land_area_txt := Some (lit "200") |}.

(** The scenario sale with 100 square metres of land as well. *)
Definition equal_areas_row : RawRecord :=
  {| district := None; subject := tok_fangdi;
     trade_date := Some (lit "1130615"); build_date := Some (lit "1000101");
     total_price_txt := Some (lit "30000000"); unit_price_sqm_txt := None;
     building_area_txt := Some (lit "100"); land_area_txt := Some (lit "100") |}.

(** A label with the land and the building token and no [房地]. *)
Definition label_land_and_building : pystr := tok_tudi ++ tok_jianwu.

(** Columns used below. *)
Definition col_a : list Q := map inject_Z [0; 5; 5; 12].
Definition col_b : list Q := map inject_Z [1; 2; 7; 8; 20].
Definition col_negative : list Q := [(-1 # 2)%Q].

(* ------------------------------------------------------------------ *)
(** ** The pipeline on one row *)

(** What [process_data] makes of one row of the table: the cleaned row when
    it passes the two filters, has a transaction year and a unit price
    inside the band, nothing otherwise. *)
Definition process_row (to_numeric : pystr -> float) (district_list : list pystr)
    (type_filter : pystr) (r : RawRecord) : list CleanRecord :=
  if passes_filters district_list type_filter r then
    match clean_row to_numeric r with
    | Some c => if in_band c then [c] else []
    | None => []
    end
  else [].

(** [l1] is [l2] with some members left out, the others in their order. *)
Inductive subseq {A : Type} : list A -> list A -> Prop :=
| subseq_nil : subseq [] []
| subseq_skip (x : A) (l1 l2 : list A) : subseq l1 l2 -> subseq l1 (x :: l2)
| subseq_keep (x : A) (l1 l2 : list A) : subseq l1 l2 -> subseq (x :: l1) (x :: l2).

(** A row with another text in the [單價元平方公尺] column. *)
Definition with_unit_price_sqm (r : RawRecord) (u : cell) : RawRecord :=
  {| district := district r; subject := subject r;
     trade_date := trade_date r; build_date := build_date r;
     total_price_txt := total_price_txt r;
     unit_price_sqm_txt := u;
     building_area_txt := building_area_txt r;
     land_area_txt := land_area_txt r |}.

(** The columns of a cleaned row that the analysis reads. *)
Definition computed_columns (c : CleanRecord) : float * float * float * Z * Z :=
  (total_price_major (derived c), area_units (derived c),
   unit_price (derived c), transaction_year c, building_age c).


Definition tok_douliu : pystr := [0x6597; 0x516d; 0x5e02]%N.  (* 斗六市 *)
Definition tok_huwei : pystr := [0x864e; 0x5c3e; 0x93ae]%N.   (* 虎尾鎮 *)

(** The scenario sale, in 斗六市. *)
Definition douliu_row : RawRecord :=
  {| district := Some tok_douliu; subject := tok_fangdi;
     trade_date := Some (lit "1130615"); build_date := Some (lit "1000101");
     total_price_txt := Some (lit "30000000"); unit_price_sqm_txt := None;
     building_area_txt := Some (lit "100"); land_area_txt := None |}.


(** An ASCII decimal digit. *)
Definition is_digit (c : N) : bool :=
  match digit_val c with
  | Some _ => true
  | None => false
  end.


(** [x] lies in the bin [iv]: above its left end and at most its right
    end, or, for the first bin, at its left end. *)
Definition in_bin (first : bool) (iv : Interval) (x : Q) : bool :=
  (Qltb (inject_Z (lo iv)) x && Qle_bool x (inject_Z (hi iv)))
  || (first && Qeq_bool x (inject_Z (lo iv))).

(** The rational number a finite float stands for (0 for the others). *)
Definition Qval (x : float) : Q :=
  match x with
  | S754_finite s m e =>
      ((if s then -1 else 1) * inject_Z (Z.pos m) * Qpower 2 e)%Q
  | _ => 0%Q
  end.

(** The column [df['單價_萬元_坪']] of a cleaned table, as values. *)
Definition unit_price_column (df : list CleanRecord) : list Q :=
  map (fun c => Qval (unit_price (derived c))) df.


(* ------------------------------------------------------------------ *)
(** ** The age classes of the report *)

(** [pd.cut(_, bins)] with its defaults, on one value: the bins are closed
    on the right, and the first break belongs to none of them. *)
Definition cut_right (bins : list Z) (x : Q) : option nat :=
  let ids := searchsorted_left bins x in
  if (ids =? List.length bins)%nat || (ids =? 0)%nat then None
  else Some (ids - 1)%nat.

(** The labels 新成屋(0-5), 中古屋(5-20) and 老屋(>20). *)
Inductive AgeClass : Type := NewHouse | SecondHand | OldHouse.

Definition age_bins : list Z := [-1; 5; 20; 100].
Definition age_labels : list AgeClass := [NewHouse; SecondHand; OldHouse].

(** The entry of the column [屋齡分類] for one age. *)
Definition age_class (age : Z) : option AgeClass :=
  match cut_right age_bins (inject_Z age) with
  | Some i => nth_error age_labels i
  | None => None
  end.


(* ------------------------------------------------------------------ *)
(** ** The monthly trend of the report *)

(** [s[:-2]]. *)
Definition drop_last2 (s : pystr) : pystr := firstn (List.length s - 2)%nat s.

(** The column [交易年月]: the transaction date without its last two
    characters. *)
Definition period_key (c : CleanRecord) : cell :=
  option_map drop_last2 (trade_date (raw (derived c))).

(** The order of Python on strings: code point by code point, a proper
    prefix first. *)
Fixpoint pystr_compare (a b : pystr) : comparison :=
  match a, b with
  | [], [] => Eq
  | [], _ :: _ => Lt
  | _ :: _, [] => Gt
  | x :: a', y :: b' =>
      match (x ?= y)%N with
      | Eq => pystr_compare a' b'
      | Lt => Lt
      | Gt => Gt
      end
  end.

Definition key_lt (a b : pystr) : Prop := pystr_compare a b = Lt.

(** The group keys of [groupby], kept in ascending order, each once. *)
Fixpoint insert_key (k : pystr) (l : list pystr) : list pystr :=
  match l with
  | [] => [k]
  | h :: t =>
      match pystr_compare k h with
      | Lt => k :: l
      | Eq => l
      | Gt => h :: insert_key k t
      end
  end.

Definition group_keys (df : list CleanRecord) : list pystr :=
  fold_right
    (fun c acc =>
       match period_key c with
       | Some k => insert_key k acc
       | None => acc
       end) [] df.

(** The rows of one group. *)
Definition in_group (k : pystr) (c : CleanRecord) : bool :=
  match period_key c with
  | Some k' => PyStr.eqb k' k
  | None => false
  end.

(** The aggregation ['count']: the values that are not NaN. *)
Definition count_notna (col : list float) : nat :=
  List.length (filter (fun x => negb (isnan x)) col).

Section Trend.

(** The aggregation ['mean'] on a column of floats. *)
Variable mean : list float -> float.

(** The frame [trend]: per month, in ascending order of the month, the
    mean unit price and the number of sales. *)
Definition trend (df : list CleanRecord) : list (pystr * float * nat) :=
  map
    (fun k =>
       let g := filter (in_group k) df in
       (k,
        mean (map (fun c => unit_price (derived c)) g),
        count_notna (map (fun c => total_price_major (derived c)) g)))
    (group_keys df).

End Trend.


(* ------------------------------------------------------------------ *)
(** ** The archive member of a city *)

(** The dictionary [CITY_CODE], in the order it is written. *)
Definition CITY_CODE : list (pystr * pystr) :=
  [([0x81fa; 0x5317; 0x5e02]%N, lit "A");   (* 臺北市 *)
   ([0x65b0; 0x5317; 0x5e02]%N, lit "F");   (* 新北市 *)
   ([0x6843; 0x5712; 0x5e02]%N, lit "H");   (* 桃園市 *)
   ([0x81fa; 0x4e2d; 0x5e02]%N, lit "B");   (* 臺中市 *)
   ([0x81fa; 0x5357; 0x5e02]%N, lit "D");   (* 臺南市 *)
   ([0x9ad8; 0x96c4; 0x5e02]%N, lit "E");   (* 高雄市 *)
   ([0x57fa; 0x9686; 0x5e02]%N, lit "C");   (* 基隆市 *)
   ([0x65b0; 0x7af9; 0x5e02]%N, lit "O");   (* 新竹市 *)
   ([0x65b0; 0x7af9; 0x7e23]%N, lit "J");   (* 新竹縣 *)
   ([0x5b9c; 0x862d; 0x7e23]%N, lit "G");   (* 宜蘭縣 *)
   ([0x82d7; 0x6817; 0x7e23]%N, lit "K");   (* 苗栗縣 *)
   ([0x5f70; 0x5316; 0x7e23]%N, lit "N");   (* 彰化縣 *)
   ([0x5357; 0x6295; 0x7e23]%N, lit "L");   (* 南投縣 *)
   ([0x96f2; 0x6797; 0x7e23]%N, lit "P");   (* 雲林縣 *)
   ([0x5609; 0x7fa9; 0x5e02]%N, lit "I");   (* 嘉義市 *)
   ([0x5609; 0x7fa9; 0x7e23]%N, lit "Q");   (* 嘉義縣 *)
   ([0x5c4f; 0x6771; 0x7e23]%N, lit "T");   (* 屏東縣 *)
   ([0x82b1; 0x84ee; 0x7e23]%N, lit "U");   (* 花蓮縣 *)
   ([0x81fa; 0x6771; 0x7e23]%N, lit "V");   (* 臺東縣 *)
   ([0x6f8e; 0x6e56; 0x7e23]%N, lit "X");   (* 澎湖縣 *)
   ([0x91d1; 0x9580; 0x7e23]%N, lit "W")].  (* 金門縣 *)

Definition tok_yunlin : pystr := [0x96f2; 0x6797; 0x7e23]%N.  (* 雲林縣 *)

(** [d[k]]: [None] is [KeyError]. *)
Fixpoint dict_get (d : list (pystr * pystr)) (k : pystr) : option pystr :=
  match d with
  | [] => None
  | (k', v) :: d' => if PyStr.eqb k k' then Some v else dict_get d' k
  end.

(** [f"{city_char}_lvr_land_A.csv"]. *)
Definition member_name (city_char : pystr) : pystr :=
  city_char ++ lit "_lvr_land_A.csv".

(** A cell holds a text that [to_numeric] reads as a finite number other
    than zero. *)
Definition usable_number (to_numeric : pystr -> float) (c : cell) : Prop :=
  exists s sign m e, c = Some s /\ to_numeric s = S754_finite sign m e.

(* ================================================================== *)
(** * Properties *)

(** ** Running the model *)

Example parse_roc_year_1130615 : parse_roc_year (Some (lit "1130615")) = Some 2024.
Proof. reflexivity. Qed.

Example parse_roc_year_short : parse_roc_year (Some (lit "99123")) = None.
Proof. reflexivity. Qed.

Example py_int_forms :
  py_int (lit " 0_99 ") = Some 99 /\ py_int (lit "-12") = Some (-12)
  /\ py_int (lit "") = None /\ py_int (lit "1__0") = None
  /\ py_int (lit "113/") = None /\ py_int (lit "_1") = None.
Proof. repeat split; reflexivity. Qed.

Example to_numeric_digits_forms :
  to_numeric_digits (lit "100") = of_int 100
  /\ to_numeric_digits (lit "-7") = of_int (-7)
  /\ to_numeric_digits (lit "1_0") = nan
  /\ to_numeric_digits (lit "abc") = nan.
Proof. repeat split; reflexivity. Qed.

(** ** Strings *)

Lemma drop_last4_short (s : pystr) :
  (List.length s <= 4)%nat -> drop_last4 s = [].
Proof.
  intros H. unfold drop_last4.
  replace (List.length s - 4)%nat with 0%nat by lia. reflexivity.
Qed.

Lemma pystr_eqb_eq (a b : pystr) : PyStr.eqb a b = true <-> a = b.
Proof.
  unfold PyStr.eqb. destruct (list_eq_dec N.eq_dec a b); split; congruence.
Qed.

(** ** The pipeline, row by row *)

Section PipelineFacts.

Variable to_numeric : pystr -> float.

Lemma raw_derive (r : RawRecord) : raw (derive to_numeric r) = r.
Proof. reflexivity. Qed.

Lemma in_filter_district dl df r :
  In r (filter_district dl df) <->
  In r df /\ match dl with [] => true | _ :: _ => isin dl r end = true.
Proof.
  unfold filter_district. destruct dl as [|d dl'].
  - tauto.
  - apply filter_In.
Qed.

Lemma in_filter_subject tf df r :
  In r (filter_subject tf df) <->
  In r df /\
  (if PyStr.eqb tf tok_fangdi then keep_fangdi (subject r)
   else if PyStr.eqb tf tok_tudi then keep_tudi (subject r)
   else true) = true.
Proof.
  clear to_numeric. unfold filter_subject.
  destruct (PyStr.eqb tf tok_fangdi); [apply filter_In|].
  destruct (PyStr.eqb tf tok_tudi); [apply filter_In|]. tauto.
Qed.

Lemma in_filters dl tf df r :
  In r (filter_subject tf (filter_district dl df)) <->
  In r df /\ passes_filters dl tf r = true.
Proof.
  clear to_numeric. rewrite in_filter_subject, in_filter_district.
  unfold passes_filters. rewrite andb_true_iff. tauto.
Qed.

Lemma in_dropna_year (l : list Derived) d y :
  In (d, y) (dropna_year l) <->
  In d l /\ parse_roc_year (trade_date (raw d)) = Some y.
Proof.
  unfold dropna_year. rewrite in_flat_map. split.
  - intros [d' [Hd' Hin]].
    destruct (parse_roc_year (trade_date (raw d'))) as [y'|] eqn:E.
    + destruct Hin as [Heq|[]]. inversion Heq; subst. auto.
    + destruct Hin.
  - intros [Hd Hy]. exists d. split; [assumption|]. rewrite Hy. now left.
Qed.

(** The rows entering step 6 are the rows that pass the filters and have
    a transaction year, each cleaned on its own. *)
Lemma in_derived_records dl tf df c :
  In c (derived_records to_numeric dl tf df) <->
  exists r, In r df /\ passes_filters dl tf r = true
            /\ clean_row to_numeric r = Some c.
Proof.
  unfold derived_records, clean_row. rewrite in_map_iff. split.
  - intros [[d y] [Hc Hin]]. apply in_dropna_year in Hin as [Hd Hy].
    apply in_map_iff in Hd as [r [Hr Hin]]. apply in_filters in Hin as [Hin Hp].
    exists r. subst d. rewrite raw_derive in Hy. rewrite Hy.
    repeat split; try assumption. now rewrite Hc.
  - intros [r [Hin [Hp Hc]]].
    destruct (parse_roc_year (trade_date r)) as [y|] eqn:Hy; [|discriminate].
    exists (derive to_numeric r, y). split; [congruence|].
    apply in_dropna_year. split.
    + apply in_map. apply in_filters. auto.
    + now rewrite raw_derive.
Qed.

Lemma in_process_data dl tf df c :
  In c (process_data to_numeric dl tf df) <->
  In c (derived_records to_numeric dl tf df) /\ in_band c = true.
Proof. apply filter_In. Qed.

Lemma clean_row_raw r c : clean_row to_numeric r = Some c -> raw (derived c) = r.
Proof.
  unfold clean_row. destruct (parse_roc_year (trade_date r)); [|discriminate].
  intros H. inversion H. reflexivity.
Qed.

Lemma clean_row_fields r c :
  clean_row to_numeric r = Some c ->
  derived c = derive to_numeric r
  /\ parse_roc_year (trade_date r) = Some (transaction_year c)
  /\ building_age c = calc_age (build_date r) (transaction_year c).
Proof.
  unfold clean_row. destruct (parse_roc_year (trade_date r)); [|discriminate].
  intros H. inversion H. simpl. auto.
Qed.

End PipelineFacts.

(** ** binary64 facts *)

Lemma calc_unit_price_finite (p a : float) : isfinite (calc_unit_price p a) = true.
Proof.
  unfold calc_unit_price, replace_inf, fillna0.
  destruct (F64.div p a) as [s|[|]| |s m e]; reflexivity.
Qed.

Lemma eqb_zero_iff (x : float) :
  F64.eqb x zero = true <-> exists s, x = S754_zero s.
Proof.
  split.
  - destruct x as [s|s| |s m e]; simpl; try discriminate.
    + eauto.
    + destruct s; discriminate.
    + destruct s; discriminate.
  - intros [s ->]. reflexivity.
Qed.

Lemma div_by_zero_coerced (p a : float) :
  F64.eqb a zero = true -> F64.eqb (calc_unit_price p a) zero = true.
Proof.
  intros H. apply eqb_zero_iff in H as [s ->].
  destruct p as [[]|[]| |[] m e]; destruct s; reflexivity.
Qed.

Lemma div_by_nonfinite_coerced (p a : float) :
  isfinite a = false -> F64.eqb (calc_unit_price p a) zero = true.
Proof.
  destruct a as [s|s| |s m e]; try discriminate; intros _.
  - destruct p as [[]|[]| |[] mp ep]; destruct s; reflexivity.
  - destruct p; reflexivity.
Qed.

Lemma zero_out_of_band (x : float) :
  F64.eqb x zero = true -> F64.ltb lit_0_1 x = false.
Proof. intros H. apply eqb_zero_iff in H as [s ->]. reflexivity. Qed.

Lemma div_same_sign_nonneg (p a : float) :
  F64.leb zero p = true -> F64.leb zero a = true ->
  F64.leb zero (calc_unit_price p a) = true.
Proof.
  intros Hp Ha.
  destruct p as [sp|[|]| |[|] mp ep]; try discriminate;
    destruct a as [sa|[|]| |[|] ma ea]; try discriminate;
    try (destruct sp); try (destruct sa); try reflexivity.
  unfold calc_unit_price, F64.div, SFdiv.
  destruct (SFdiv_core_binary prec emax (Z.pos mp) ep (Z.pos ma) ea) as [[mz ez] lz].
  unfold binary_round_aux.
  destruct (shr_fexp prec emax mz ez lz) as [mrs' e'].
  destruct (shr_fexp prec emax _ e' loc_Exact) as [mrs'' e''].
  destruct (shr_m mrs'') as [|m|m]; try reflexivity.
  simpl xorb. destruct (e'' <=? emax - prec); reflexivity.
Qed.

(* ------------------------------------------------------------------ *)
(** ** Outlier Excluder *)

(** C1. Every row of the frame [process_data] returns has a unit price
    strictly above 0.1 and strictly below 300; a row that reaches step 6
    with a unit price outside the band, among them every row whose unit
    price was set to 0 and the two ends 0.1 and 300 themselves, is not in
    the returned frame. *)
Theorem outlier_excluder_band (to_numeric : pystr -> float)
    (dl : list pystr) (tf : pystr) (df : list RawRecord) (c : CleanRecord) :
  (In c (process_data to_numeric dl tf df) ->
     In c (derived_records to_numeric dl tf df)
     /\ F64.ltb lit_0_1 (unit_price (derived c)) = true
     /\ F64.ltb (unit_price (derived c)) (of_int 300) = true)
  /\ (F64.ltb lit_0_1 (unit_price (derived c)) = false
      \/ F64.ltb (unit_price (derived c)) (of_int 300) = false ->
      ~ In c (process_data to_numeric dl tf df))
  /\ (F64.eqb (unit_price (derived c)) zero = true ->
      ~ In c (process_data to_numeric dl tf df))
  /\ (unit_price (derived c) = lit_0_1 \/ unit_price (derived c) = of_int 300 ->
      ~ In c (process_data to_numeric dl tf df)).
Proof.
  assert (Hout : F64.ltb lit_0_1 (unit_price (derived c)) = false
      \/ F64.ltb (unit_price (derived c)) (of_int 300) = false ->
      ~ In c (process_data to_numeric dl tf df)).
  { intros H Hin. apply in_process_data in Hin as [_ Hb].
    unfold in_band in Hb. apply andb_true_iff in Hb as [H1 H2].
    destruct H; congruence. }
  repeat split.
  - now apply in_process_data in H.
  - apply in_process_data in H as [_ Hb]. unfold in_band in Hb.
    now apply andb_true_iff in Hb.
  - apply in_process_data in H as [_ Hb]. unfold in_band in Hb.
    now apply andb_true_iff in Hb.
  - exact Hout.
  - intros H. apply Hout. left. now apply zero_out_of_band.
  - intros [H|H]; apply Hout; rewrite H; [left|right]; reflexivity.
Qed.

Lemma outlier_excluder_band_witness :
  In scenario_clean (process_data to_numeric_digits [] tok_all [scenario_row])
  /\ In scenario_clean (derived_records to_numeric_digits [] tok_all [scenario_row])
  /\ F64.ltb lit_0_1 (unit_price (derived scenario_clean)) = true
  /\ F64.ltb (unit_price (derived scenario_clean)) (of_int 300) = true.
Proof.
  assert (H : In scenario_clean
                (process_data to_numeric_digits [] tok_all [scenario_row])).
  { vm_compute. left. reflexivity. }
  split; [exact H|].
  exact (proj1 (outlier_excluder_band to_numeric_digits [] tok_all
                  [scenario_row] scenario_clean) H).
Defined.

(* ------------------------------------------------------------------ *)
(** ** Calendar Normalizer *)



(* ------------------------------------------------------------------ *)
(** ** Derived-Field Calculator *)

(** C3, as the code has it. In every row that reaches step 6 the unit price
    is [總價_萬元 / 面積_坪] with the infinities and NaN replaced by 0, so
    it is finite; it is 0 when the area is zero or not finite; and it is
    not negative when neither the price nor the area is. *)
Theorem unit_price_finite (to_numeric : pystr -> float)
    (dl : list pystr) (tf : pystr) (df : list RawRecord) (c : CleanRecord) :
  In c (derived_records to_numeric dl tf df) ->
  let d := derived c in
  unit_price d = calc_unit_price (total_price_major d) (area_units d)
  /\ isfinite (unit_price d) = true
  /\ (F64.eqb (area_units d) zero = true \/ isfinite (area_units d) = false ->
      F64.eqb (unit_price d) zero = true)
  /\ (F64.leb zero (total_price_major d) = true ->
      F64.leb zero (area_units d) = true ->
      F64.leb zero (unit_price d) = true).
Proof.
  intros Hin d. subst d.
  apply in_derived_records in Hin as [r [_ [_ Hc]]].
  apply clean_row_fields in Hc as [-> _]. cbn [derive unit_price total_price_major area_units].
  split; [reflexivity|]. split; [apply calc_unit_price_finite|]. split.
  - intros [H|H]; [now apply div_by_zero_coerced | now apply div_by_nonfinite_coerced].
  - apply div_same_sign_nonneg.
Qed.

Lemma unit_price_finite_witness :
  isfinite (unit_price (derived scenario_clean)) = true.
Proof.
  refine (proj1 (proj2 (unit_price_finite to_numeric_digits [] tok_all
                          [scenario_row] scenario_clean _))).
  vm_compute. left. reflexivity.
Defined.

(** C3 as stated fails: a price written with a minus sign over a positive
    area gives a negative unit price, which steps 3 and 4 leave as it is. *)
Lemma unit_price_negative_counterexample :
  ~ (forall to_numeric dl tf df c,
       In c (derived_records to_numeric dl tf df) ->
       isfinite (unit_price (derived c)) = true
       /\ F64.leb zero (unit_price (derived c)) = true).
Proof.
  intros H.
  specialize (H to_numeric_digits [] tok_all [negative_price_row]
                (add_age (derive to_numeric_digits negative_price_row, 2024))).
  destruct H as [_ H]; [vm_compute; left; reflexivity|].
  vm_compute in H. discriminate.
Qed.

(** C4, as the code has it. The area in ping is the building area times
    0.3025 whenever that product is not zero, and the land area times
    0.3025 when it is; the land fallback is taken exactly when the product
    compares equal to 0, that is, when it is [0.0] or [-0.0].  The area has
    the value of the land product in that case, and otherwise only when the
    two products are the same float. *)
Theorem area_units_fallback (to_numeric : pystr -> float) (r : RawRecord) :
  let d := derive to_numeric r in
  let building := F64.mul (building_area d) sqm_to_ping in
  let land := F64.mul (land_area d) sqm_to_ping in
  building_area d = coerce to_numeric (building_area_txt r)
  /\ land_area d = coerce to_numeric (land_area_txt r)
  /\ (F64.eqb building zero = false -> area_units d = building)
  /\ (F64.eqb building zero = true -> area_units d = land)
  /\ (mask_land building = true <-> F64.eqb building zero = true)
  /\ (F64.eqb building zero = true <-> exists s, building = S754_zero s)
  /\ (area_units d = land <-> F64.eqb building zero = true \/ building = land).
Proof.
  intros d building land. subst d building land.
  cbn [derive building_area land_area area_units].
  unfold calc_area_units, mask_land.
  split; [reflexivity|]. split; [reflexivity|].
  split; [intros H; rewrite H; reflexivity|].
  split; [intros H; rewrite H; reflexivity|].
  split; [tauto|]. split; [apply eqb_zero_iff|].
  destruct (F64.eqb (F64.mul (coerce to_numeric (building_area_txt r)) sqm_to_ping) zero).
  - split; auto.
  - split; [auto|]. intros [H|H]; [discriminate|exact H].
Qed.

Lemma area_units_fallback_witness :
  area_units (derive to_numeric_digits scenario_row) = lit_30_25
  /\ area_units (derive to_numeric_digits land_only_row) = lit_60_5.
Proof.
  split.
  - rewrite (proj1 (proj2 (proj2
               (area_units_fallback to_numeric_digits scenario_row))));
      reflexivity.
  - rewrite (proj1 (proj2 (proj2 (proj2
               (area_units_fallback to_numeric_digits land_only_row)))));
      reflexivity.
Defined.

(** C4 as stated fails. On a sale with 100 square metres of building and
    100 of land the building product is 30.25, not zero, and no fallback is
    taken; the area is the building product, and it equals the land
    product all the same, the two being the same number.  So the area can
    equal the land product without the building product being zero. *)
Lemma area_units_fallback_counterexample :
  F64.mul (building_area (derive to_numeric_digits equal_areas_row)) sqm_to_ping
  = lit_30_25
  /\ mask_land
       (F64.mul (building_area (derive to_numeric_digits equal_areas_row))
          sqm_to_ping) = false
  /\ area_units (derive to_numeric_digits equal_areas_row)
     = F64.mul (land_area (derive to_numeric_digits equal_areas_row)) sqm_to_ping
  /\ ~ (forall r : RawRecord,
          area_units (derive to_numeric_digits r)
          = F64.mul (land_area (derive to_numeric_digits r)) sqm_to_ping
          <-> F64.eqb (F64.mul (building_area (derive to_numeric_digits r))
                         sqm_to_ping) zero = true).
Proof.
  split; [reflexivity|]. split; [reflexivity|]. split; [reflexivity|].
  intros H. destruct (H equal_areas_row) as [H1 _].
  specialize (H1 eq_refl). vm_compute in H1. discriminate H1.
Qed.

(* ------------------------------------------------------------------ *)
(** ** The worked scenario *)

(** C6, as the code has it. A row sold on "1130615", completed on "1000101",
    with total price "30000000" and building area "100", that passes the
    filters, is in the returned frame with transaction year 2024, building
    age 13 (2024 - (100 + 1911)), 3000 for [總價_萬元], 30.25 for
    [面積_坪] and a unit price between 99.17 and 99.18. *)
Theorem scenario_record_retained (to_numeric : pystr -> float)
    (dl : list pystr) (tf : pystr) (df : list RawRecord) (r : RawRecord) :
  to_numeric (lit "30000000") = of_int 30000000 ->
  to_numeric (lit "100") = of_int 100 ->
  trade_date r = Some (lit "1130615") ->
  build_date r = Some (lit "1000101") ->
  total_price_txt r = Some (lit "30000000") ->
  building_area_txt r = Some (lit "100") ->
  In r df -> passes_filters dl tf r = true ->
  exists c, In c (process_data to_numeric dl tf df)
    /\ raw (derived c) = r
    /\ transaction_year c = 2024
    /\ building_age c = 13
    /\ total_price_major (derived c) = of_int 3000
    /\ area_units (derived c) = lit_30_25
    /\ unit_price (derived c) = F64.div (of_int 3000) lit_30_25
    /\ F64.ltb (F64.div (of_int 9917) (of_int 100)) (unit_price (derived c)) = true
    /\ F64.ltb (unit_price (derived c)) (F64.div (of_int 9918) (of_int 100)) = true.
Proof.
  intros Hp Ha Htd Hbd Htp Hba Hin Hpass.
  assert (Hprice : total_price_major (derive to_numeric r) = of_int 3000).
  { cbn [derive total_price_major]. unfold coerce, to_numeric_cell.
    rewrite Htp, Hp. reflexivity. }
  assert (Harea : area_units (derive to_numeric r) = lit_30_25).
  { cbn [derive area_units]. unfold coerce at 1. unfold to_numeric_cell at 1.
    rewrite Hba, Ha. reflexivity. }
  assert (Hunit : unit_price (derive to_numeric r) = F64.div (of_int 3000) lit_30_25).
  { change (unit_price (derive to_numeric r))
      with (calc_unit_price (total_price_major (derive to_numeric r))
                            (area_units (derive to_numeric r))).
    rewrite Hprice, Harea. reflexivity. }
  assert (Hclean : clean_row to_numeric r
                   = Some (add_age (derive to_numeric r, 2024))).
  { unfold clean_row. rewrite Htd. reflexivity. }
  exists (add_age (derive to_numeric r, 2024)). split.
  - apply in_process_data. split.
    + apply in_derived_records. exists r. repeat split; assumption.
    + unfold in_band. cbn [add_age derived]. rewrite Hunit. reflexivity.
  - cbn [add_age derived transaction_year building_age].
    rewrite Hprice, Harea, Hunit, raw_derive, Hbd.
    repeat split; reflexivity.
Qed.

Lemma scenario_record_retained_witness :
  exists c, In c (process_data to_numeric_digits [] tok_all [scenario_row])
    /\ raw (derived c) = scenario_row
    /\ transaction_year c = 2024
    /\ building_age c = 13
    /\ total_price_major (derived c) = of_int 3000
    /\ area_units (derived c) = lit_30_25
    /\ unit_price (derived c) = F64.div (of_int 3000) lit_30_25
    /\ F64.ltb (F64.div (of_int 9917) (of_int 100)) (unit_price (derived c)) = true
    /\ F64.ltb (unit_price (derived c)) (F64.div (of_int 9918) (of_int 100)) = true.
Proof.
  apply (scenario_record_retained to_numeric_digits [] tok_all [scenario_row]
           scenario_row); try reflexivity.
  left. reflexivity.
Defined.

(** C6 as stated fails on the building age: completion year 100 is 2011,
    and 2024 - 2011 is 13, not 24. *)
Lemma scenario_building_age_counterexample :
  process_data to_numeric_digits [] tok_all [scenario_row] = [scenario_clean]
  /\ transaction_year scenario_clean = 2024
  /\ building_age scenario_clean = 13
  /\ building_age scenario_clean <> 24.
Proof. repeat split; try reflexivity. vm_compute. discriminate. Qed.

(* ------------------------------------------------------------------ *)
(** ** Building age *)

(** C7, as the code has it. The age is 0 when the completion date is
    missing, has fewer than five characters, or has a prefix [int] rejects;
    otherwise, with [y] the prefix read by [int], it is the transaction
    year minus [y + 1911], floored at 0 (so for every completion date the
    Calendar Normalizer accepts it is the transaction year minus the
    completion year, floored at 0).  The length test of [calc_age] is
    [< 3], not the Normalizer's [>= 6].  Whatever the completion date, the
    row is cleaned all the same: the filters, the year, the unit price and
    the band test do not read it. *)
Theorem building_age_completion_date (b : cell) (ty : Z) :
  (b = None -> calc_age b ty = 0)
  /\ (forall s, b = Some s -> (List.length s < 5)%nat -> calc_age b ty = 0)
  /\ (forall s, b = Some s -> py_int (drop_last4 s) = None -> calc_age b ty = 0)
  /\ (forall s y, b = Some s -> py_int (drop_last4 s) = Some y ->
        calc_age b ty = Z.max (ty - (y + 1911)) 0)
  /\ (forall cy, parse_roc_year b = Some cy -> calc_age b ty = Z.max (ty - cy) 0)
  /\ 0 <= calc_age b ty
  /\ (forall to_numeric dl tf r c,
        clean_row to_numeric r = Some c ->
        passes_filters dl tf (with_build_date r b) = passes_filters dl tf r
        /\ exists c',
            clean_row to_numeric (with_build_date r b) = Some c'
            /\ transaction_year c' = transaction_year c
            /\ unit_price (derived c') = unit_price (derived c)
            /\ in_band c' = in_band c
            /\ building_age c' = calc_age b (transaction_year c)).
Proof.
  assert (Hsome : forall s y, py_int (drop_last4 s) = Some y ->
            calc_age (Some s) ty = Z.max (ty - (y + 1911)) 0).
  { intros s y Hy. unfold calc_age. rewrite Hy.
    destruct (List.length s <? 3)%nat eqn:E; [|reflexivity].
    apply Nat.ltb_lt in E. rewrite drop_last4_short in Hy by lia. discriminate. }
  assert (Hnone : forall s, py_int (drop_last4 s) = None -> calc_age (Some s) ty = 0).
  { intros s Hy. unfold calc_age. rewrite Hy.
    now destruct (List.length s <? 3)%nat. }
  repeat split.
  - now intros ->.
  - intros s -> Hlen. apply Hnone. now rewrite drop_last4_short by lia.
  - intros s ->. apply Hnone.
  - intros s y ->. apply Hsome.
  - destruct b as [s|]; [|discriminate]. unfold parse_roc_year.
    destruct (6 <=? List.length s)%nat; [|discriminate].
    destruct (py_int (drop_last4 s)) as [y|] eqn:Hy; [|discriminate].
    intros cy H. inversion H; subst. now apply Hsome.
  - unfold calc_age. destruct b as [s|]; [|lia].
    destruct (List.length s <? 3)%nat; [lia|].
    destruct (py_int (drop_last4 s)); lia.
  - unfold clean_row in *. cbn [with_build_date trade_date].
    destruct (parse_roc_year (trade_date r)) as [y|]; [|discriminate].
    inversion H; subst. eexists. split; [reflexivity|].
    repeat split; reflexivity.
Qed.

Lemma building_age_completion_date_witness :
  calc_age (Some (lit "1000101")) 2024 = Z.max (2024 - (100 + 1911)) 0.
Proof.
  apply (proj1 (proj2 (proj2 (proj2
           (building_age_completion_date (Some (lit "1000101")) 2024))))
           (lit "1000101") 100); reflexivity.
Defined.

(** C7 as stated fails: a completion date of five characters is shorter
    than six, and the Calendar Normalizer gives no value for it, yet the age
    computed is not 0. *)
Lemma building_age_short_date_counterexample :
  ~ (forall b ty, parse_roc_year b = None -> calc_age b ty = 0)
  /\ (List.length (lit "90101") < 6)%nat
  /\ parse_roc_year (Some (lit "90101")) = None
  /\ calc_age (Some (lit "90101")) 2024 = 104
  /\ map building_age
       (process_data to_numeric_digits [] tok_all [short_completion_row]) = [104].
Proof.
  repeat split; try reflexivity.
  - intros H. specialize (H (Some (lit "90101")) 2024 eq_refl). discriminate H.
  - vm_compute. lia.
Qed.

(* ------------------------------------------------------------------ *)
(** ** Record Filter *)

(** C8, as the code has it. A label is kept by both the land mode and the
    building mode exactly when it contains the land token and the building
    token and not [房地]; so no label containing [房地], and no label
    without the building token, is kept by both. *)
Theorem subject_filters_overlap (label : pystr) :
  keep_tudi label && keep_fangdi label
  = contains tok_tudi label && contains tok_jianwu label
    && negb (contains tok_fangdi label)
  /\ (contains tok_fangdi label = true -> keep_tudi label = false)
  /\ (contains tok_jianwu label = false ->
      keep_tudi label && keep_fangdi label = false)
  /\ (forall df r, subject r = label ->
        In r (filter_subject tok_tudi df) ->
        In r (filter_subject tok_fangdi df) ->
        contains tok_jianwu label = true /\ contains tok_fangdi label = false).
Proof.
  unfold keep_tudi, keep_fangdi. repeat split.
  - destruct (contains tok_tudi label), (contains tok_fangdi label),
      (contains tok_jianwu label); reflexivity.
  - intros ->. apply andb_false_r.
  - intros ->. destruct (contains tok_tudi label), (contains tok_fangdi label);
      reflexivity.
  - apply in_filter_subject in H0 as [_ H0]. apply in_filter_subject in H1 as [_ H1].
    cbn in H0, H1. rewrite H in *. unfold keep_tudi, keep_fangdi in *.
    destruct (contains tok_fangdi label), (contains tok_jianwu label);
      try reflexivity; rewrite ?andb_false_r in *; discriminate.
  - apply in_filter_subject in H0 as [_ H0]. cbn in H0. rewrite H in *.
    unfold keep_tudi in H0. apply andb_true_iff in H0 as [_ H0].
    now destruct (contains tok_fangdi label).
Qed.

Lemma subject_filters_overlap_witness :
  keep_tudi tok_tudi = true /\ keep_tudi (tok_fangdi ++ tok_tudi) = false.
Proof.
  split; [reflexivity|].
  apply (proj1 (proj2 (subject_filters_overlap (tok_fangdi ++ tok_tudi)))).
  reflexivity.
Defined.

(** C8 as stated fails: the label [土地建物] is kept by both modes. *)
Lemma subject_filters_counterexample :
  ~ (forall label, keep_tudi label = true -> keep_fangdi label = false)
  /\ keep_tudi label_land_and_building = true
  /\ keep_fangdi label_land_and_building = true.
Proof.
  repeat split; try reflexivity.
  intros H. specialize (H label_land_and_building eq_refl). discriminate H.
Qed.

(* ------------------------------------------------------------------ *)
(** ** Interval Analyzer *)

(** ** Ranges *)

(** A range over a non-empty span has its last member within one step of
    the stop. *)
Lemma range_len_span start stop step :
  start < stop ->
  let n := Z.of_nat (range_len start stop step) in
  1 <= n /\ start + (n - 1) * Z.pos step < stop <= start + n * Z.pos step.
Proof.
  intros H n. subst n. unfold range_len.
  apply Z.ltb_lt in H as H'. rewrite H'.
  assert (Hq : 0 <= (stop - start - 1) / Z.pos step)
    by (apply Z.div_pos; lia).
  rewrite Z2Nat.id by lia.
  pose proof (Z.mul_div_le (stop - start - 1) (Z.pos step) eq_refl).
  pose proof (Z.mul_succ_div_gt (stop - start - 1) (Z.pos step) eq_refl).
  nia.
Qed.

(** ** Comparisons on values *)

Lemma Qltb_lt (x y : Q) : Qltb x y = true <-> (x < y)%Q.
Proof.
  unfold Qltb. rewrite negb_true_iff. split.
  - intros H. apply Qnot_le_lt. intros Hle.
    apply Qle_bool_iff in Hle. congruence.
  - intros H. destruct (Qle_bool y x) eqn:E; [|reflexivity].
    apply Qle_bool_iff in E. now apply Qlt_not_le in H.
Qed.

Lemma Qltb_ge (x y : Q) : Qltb x y = false <-> (y <= x)%Q.
Proof.
  unfold Qltb. rewrite negb_false_iff. apply Qle_bool_iff.
Qed.

(** [int] of a non-negative value is its floor. *)
Lemma py_trunc_nonneg (x : Q) :
  (0 <= x)%Q -> (inject_Z (py_trunc x) <= x /\ x < inject_Z (py_trunc x + 1))%Q.
Proof.
  intros H. assert (E : py_trunc x = Qfloor x).
  { unfold py_trunc, Qfloor. destruct x as [n d]. cbn [Qnum Qden].
    apply Z.quot_div_nonneg; [|reflexivity].
    unfold Qle in H. cbn in H. lia. }
  rewrite E. split; [apply Qfloor_le | apply Qlt_floor].
Qed.

(** ** The column minimum *)

Lemma fold_Qmin_in (xs : list Q) (x : Q) :
  In (fold_left Qmin xs x) (x :: xs).
Proof.
  revert x. induction xs as [|y xs IH]; intros x; [now left|].
  cbn [fold_left]. destruct (IH (Qmin x y)) as [H|H].
  - rewrite <- H. unfold Qmin, GenericMinMax.gmin.
    destruct (x ?= y)%Q; [left|left|right; left]; reflexivity.
  - right. now right.
Qed.

Lemma fold_Qmin_le (xs : list Q) (x z : Q) :
  In z (x :: xs) -> (fold_left Qmin xs x <= z)%Q.
Proof.
  revert x z. induction xs as [|y xs IH]; intros x z Hin.
  - destruct Hin as [->|[]]. apply Qle_refl.
  - cbn [fold_left]. destruct Hin as [->|[->|Hin]].
    + eapply Qle_trans; [apply IH; now left|apply Q.le_min_l].
    + eapply Qle_trans; [apply IH; now left|apply Q.le_min_r].
    + apply IH. now right.
Qed.

Lemma col_min_in (col : list Q) : col <> [] -> In (col_min col) col.
Proof. destruct col as [|x xs]; [congruence|]. intros _. apply fold_Qmin_in. Qed.

Lemma col_min_le (col : list Q) (z : Q) : In z col -> (col_min col <= z)%Q.
Proof. destruct col as [|x xs]; [intros []|]. apply fold_Qmin_le. Qed.

(** ** [searchsorted] on increasing breaks *)

Section Breaks.

(** The breaks, by index. *)
Variable e : nat -> Z.
Hypothesis e_mono : forall i j, (i <= j)%nat -> e i <= e j.
Variable x : Q.

Local Abbreviation breaks n := (map e (seq 0 n)).

Lemma searchsorted_left_spec (n : nat) :
  let k := searchsorted_left (breaks n) x in
  (k <= n)%nat
  /\ (forall i, (i < k)%nat -> (inject_Z (e i) < x)%Q)
  /\ ((k < n)%nat -> (x <= inject_Z (e k))%Q).
Proof.
  induction n as [|n IH]; cbn zeta in *.
  - cbn. repeat split; lia.
  - unfold searchsorted_left in *.
    rewrite seq_S, map_app, filter_app, length_app. cbn [map filter Nat.add].
    set (k := List.length (filter (fun b => Qltb (inject_Z b) x) (map e (seq 0 n)))) in *.
    destruct IH as [Hk [Hlt Hge]].
    destruct (Qltb (inject_Z (e n)) x) eqn:E; cbn [List.length].
    + apply Qltb_lt in E.
      assert (k = n).
      { destruct (Nat.eq_dec k n) as [|Hne]; [assumption|exfalso].
        assert (Hkn : (k < n)%nat) by lia. specialize (Hge Hkn).
        assert (H : (inject_Z (e k) <= inject_Z (e n))%Q)
          by (rewrite <- Zle_Qle; apply e_mono; lia).
        apply (Qlt_not_le _ _ E). eapply Qle_trans; eassumption. }
      subst k. rewrite H. repeat split; try lia.
      intros i Hi. destruct (Nat.eq_dec i n) as [->|Hne]; [assumption|].
      apply Hlt. lia.
    + apply Qltb_ge in E. rewrite Nat.add_0_r. repeat split; try lia.
      * assumption.
      * intros _. destruct (Nat.eq_dec k n) as [->|Hne]; [assumption|].
        apply Hge. lia.
Qed.


Lemma breaks_length (n : nat) : List.length (breaks n) = n.
Proof. now rewrite length_map, length_seq. Qed.

Lemma e_mono_Q (i j : nat) : (i <= j)%nat -> (inject_Z (e i) <= inject_Z (e j))%Q.
Proof. intros H. rewrite <- Zle_Qle. now apply e_mono. Qed.

(** A value gets the code [i] exactly when it lies in the bin between
    breaks [i] and [i+1], open on the left and closed on the right, or is
    the first break itself. *)
Lemma cut_one_spec (n i : nat) :
  cut_one (breaks n) x = Some i <->
  (i + 1 < n)%nat
  /\ ((inject_Z (e i) < x /\ x <= inject_Z (e (i + 1)%nat))%Q
      \/ (i = 0%nat /\ x == inject_Z (e 0%nat))).
Proof.
  destruct n as [|m].
  { cbn. split; [discriminate|intros [H _]; lia]. }
  pose proof (searchsorted_left_spec (S m)) as Hs. cbn zeta in Hs.
  unfold cut_one. rewrite breaks_length.
  change (breaks (S m)) with (e 0%nat :: map e (seq 1 m)) at 1.
  cbv iota beta.
  destruct (Qeq_bool x (inject_Z (e 0%nat))) eqn:E0.
  - apply Qeq_bool_iff in E0. destruct m as [|m].
    + cbn. split; [discriminate|intros [H _]; lia].
    + cbn [Nat.eqb orb Nat.sub]. split.
      * intros H. inversion H; subst i. split; [lia|]. right. now split.
      * intros [Hi [[Hlt _]|[-> _]]]; [exfalso|reflexivity].
        pose proof (e_mono_Q 0 i ltac:(lia)). lra.
  - assert (Hne : ~ x == inject_Z (e 0%nat)).
    { intros H. apply Qeq_bool_iff in H. congruence. }
    set (k := searchsorted_left (breaks (S m)) x) in *.
    destruct Hs as [Hk [Hlt Hge]].
    destruct (Nat.eqb_spec k (S m)) as [Ekn|Ekn]; cbn [orb].
    + split; [discriminate|]. intros [Hi [[_ Hle]|[_ H]]]; [exfalso|tauto].
      specialize (Hlt (i + 1)%nat ltac:(lia)). lra.
    + destruct (Nat.eqb_spec k 0) as [Ek0|Ek0].
      * split; [discriminate|]. intros [Hi [[Hl _]|[_ H]]]; [exfalso|tauto].
        rewrite Ek0 in Hge. specialize (Hge ltac:(lia)).
        pose proof (e_mono_Q 0 i ltac:(lia)). lra.
      * split.
        -- intros H. inversion H; subst i. split; [lia|]. left.
           replace (k - 1 + 1)%nat with k by lia. split.
           ++ apply Hlt. lia.
           ++ apply Hge. lia.
        -- intros [Hi [[Hl Hle]|[_ H]]]; [|tauto]. f_equal.
           destruct (Nat.lt_trichotomy (i + 1) k) as [Hc|[Hc|Hc]]; [exfalso| lia |exfalso].
           ++ specialize (Hlt (i + 1)%nat Hc). lra.
           ++ specialize (Hge ltac:(lia)).
              pose proof (e_mono_Q k i ltac:(lia)). lra.
Qed.

(** Every value between the first and the last break gets a code. *)
Lemma cut_one_in_range (n : nat) :
  (inject_Z (e 0%nat) <= x /\ x <= inject_Z (e (n - 1)%nat))%Q ->
  (2 <= n)%nat ->
  exists i, cut_one (breaks n) x = Some i.
Proof.
  intros [Hlo Hhi] Hn.
  destruct (Qeq_bool x (inject_Z (e 0%nat))) eqn:E0.
  - exists 0%nat. apply cut_one_spec. split; [lia|]. right.
    split; [reflexivity|]. now apply Qeq_bool_iff.
  - assert (Hne : ~ x == inject_Z (e 0%nat)).
    { intros H. apply Qeq_bool_iff in H. congruence. }
    pose proof (searchsorted_left_spec n) as Hs. cbn zeta in Hs.
    set (k := searchsorted_left (breaks n) x) in *.
    destruct Hs as [Hk [Hlt Hge]].
    assert (Hk0 : k <> 0%nat).
    { intros Hk0. rewrite Hk0 in Hge. specialize (Hge ltac:(lia)).
      apply Hne. apply Qle_antisym; assumption. }
    assert (Hkn : (k < n)%nat).
    { destruct (Nat.eq_dec k n) as [Hkn|]; [exfalso|lia].
      specialize (Hlt (n - 1)%nat ltac:(lia)). lra. }
    exists (k - 1)%nat. apply cut_one_spec. split; [lia|]. left.
    replace (k - 1 + 1)%nat with k by lia. split; [apply Hlt; lia|now apply Hge].
Qed.

(** And only those do. *)
Lemma cut_one_some_in_range (n i : nat) :
  cut_one (breaks n) x = Some i ->
  (inject_Z (e 0%nat) <= x /\ x <= inject_Z (e (n - 1)%nat))%Q.
Proof.
  intros H. apply cut_one_spec in H as [Hi [[Hl Hle]|[_ H]]].
  - pose proof (e_mono_Q 0 i ltac:(lia)).
    pose proof (e_mono_Q (i + 1) (n - 1) ltac:(lia)). lra.
  - pose proof (e_mono_Q 0 (n - 1) ltac:(lia)). lra.
Qed.

End Breaks.

(** ** Categories and counts *)

Lemma combine_breaks (e : nat -> Z) (n s : nat) :
  combine (map e (seq s (S n))) (tl (map e (seq s (S n))))
  = map (fun i => (e i, e (S i))) (seq s n).
Proof.
  revert s. induction n as [|n IH]; intros s; [reflexivity|].
  change (seq s (S (S n))) with (s :: seq (S s) (S n)).
  specialize (IH (S s)). cbn [seq map tl combine] in *. f_equal. exact IH.
Qed.

Lemma categories_breaks (e : nat -> Z) (n : nat) :
  categories (map e (seq 0 (S n)))
  = map (fun i => mkInterval (e i) (e (S i))) (seq 0 n).
Proof.
  unfold categories. rewrite combine_breaks, map_map. reflexivity.
Qed.

Lemma map_fst_combine_seq {A B : Type} (g : nat -> B) (l : list A) (s : nat) :
  map (fun p => g (fst p)) (combine (seq s (List.length l)) l)
  = map g (seq s (List.length l)).
Proof.
  revert s. induction l as [|a l IH]; intros s; [reflexivity|].
  cbn [List.length seq combine map fst]. f_equal. apply IH.
Qed.

Lemma category_counts_counts (bins : list Z) (out : list (option nat)) :
  map snd (category_counts bins out)
  = map (fun i => List.length (filter (has_code i) out))
        (seq 0 (List.length (categories bins))).
Proof.
  unfold category_counts. rewrite map_map. cbn [snd].
  apply (map_fst_combine_seq
           (fun i => List.length (filter (has_code i) out))).
Qed.

Lemma category_counts_length (bins : list Z) (out : list (option nat)) :
  List.length (category_counts bins out) = List.length (categories bins).
Proof.
  rewrite <- (length_map snd), category_counts_counts, length_map, length_seq.
  reflexivity.
Qed.

Lemma filter_disjoint_length {A : Type} (p q : A -> bool) (l : list A) :
  (forall a, p a && q a = false) ->
  (List.length (filter p l) + List.length (filter q l))%nat
  = List.length (filter (fun a => p a || q a) l).
Proof.
  intros H. induction l as [|a l IH]; [reflexivity|].
  cbn [filter]. specialize (H a).
  destruct (p a), (q a); cbn [orb List.length] in *; try discriminate; lia.
Qed.

(** Each value with a code below [m] is counted once among the first [m]
    categories. *)
Lemma counts_sum (out : list (option nat)) (m : nat) :
  list_sum (map (fun i => List.length (filter (has_code i) out)) (seq 0 m))
  = List.length (filter (code_below m) out).
Proof.
  induction m as [|m IH].
  - cbn. induction out as [|o out IHo]; [reflexivity|].
    cbn. destruct o; assumption.
  - rewrite seq_S, map_app, list_sum_app, IH.
    change (list_sum (map _ [(0 + m)%nat]))
      with (List.length (filter (has_code m) out) + 0)%nat.
    rewrite Nat.add_0_r, filter_disjoint_length.
    + f_equal. apply filter_ext. intros [j|]; [|reflexivity].
      unfold code_below, has_code.
      destruct (j <? m)%nat eqn:E1, (j =? m)%nat eqn:E2, (j <? S m)%nat eqn:E3;
        try reflexivity; exfalso;
        rewrite ?Nat.ltb_lt, ?Nat.ltb_ge, ?Nat.eqb_eq, ?Nat.eqb_neq in *; lia.
    + intros [j|]; [|reflexivity]. unfold code_below, has_code.
      destruct (j <? m)%nat eqn:E1, (j =? m)%nat eqn:E2;
        try reflexivity; exfalso;
        rewrite ?Nat.ltb_lt, ?Nat.ltb_ge, ?Nat.eqb_eq, ?Nat.eqb_neq in *; lia.
Qed.

(** ** The sort parameter *)

Section SortBy.

Variable before : Interval * nat -> Interval * nat -> bool.
Hypothesis before_true : forall p q, before p q = true -> (snd q <= snd p)%nat.
Hypothesis before_false : forall p q, before p q = false -> (snd p <= snd q)%nat.

Lemma insert_by_perm p l : Permutation (p :: l) (insert_by before p l).
Proof.
  clear before_true before_false.
  induction l as [|q l IH]; cbn; [reflexivity|].
  destruct (before p q); [reflexivity|].
  rewrite perm_swap. now apply perm_skip.
Qed.

Lemma sort_by_perm l : Permutation l (sort_by before l).
Proof.
  clear before_true before_false.
  induction l as [|p l IH]; cbn; [constructor|].
  rewrite <- insert_by_perm. now apply perm_skip.
Qed.

Lemma insert_by_descending p l :
  descending l -> descending (insert_by before p l).
Proof.
  unfold descending. induction 1 as [|q l Hs IH Hq]; cbn.
  - repeat constructor.
  - destruct (before p q) eqn:E.
    + apply before_true in E.
      constructor; [now constructor|]. constructor; [exact E|].
      eapply Forall_impl; [|exact Hq]. unfold count_ge. intros; lia.
    + apply before_false in E. constructor; [exact IH|].
      eapply Permutation_Forall; [apply insert_by_perm|].
      constructor; [exact E|exact Hq].
Qed.

Lemma sort_by_descending l : descending (sort_by before l).
Proof.
  induction l as [|p l IH]; cbn; [constructor|].
  now apply insert_by_descending.
Qed.

End SortBy.

Lemma sort_desc_stable_perm l : Permutation l (sort_desc_stable l).
Proof. apply sort_by_perm. Qed.

Lemma sort_desc_stable_descending l : descending (sort_desc_stable l).
Proof.
  apply sort_by_descending; unfold before_stable; intros p q H.
  - now apply Nat.leb_le in H.
  - apply Nat.leb_gt in H. lia.
Qed.

Lemma sort_desc_stable_fixed l : descending l -> sort_desc_stable l = l.
Proof.
  unfold descending, sort_desc_stable.
  induction 1 as [|q l Hs IH Hq]; [reflexivity|].
  cbn [sort_by fold_right]. fold (sort_by before_stable l). rewrite IH.
  destruct l as [|r l']; [reflexivity|]. cbn [insert_by].
  inversion Hq as [|? ? Hr _]; subst. unfold count_ge in Hr.
  unfold before_stable. apply Nat.leb_le in Hr. now rewrite Hr.
Qed.

(** Its first entry is the first one, in the order given, that no other
    entry exceeds. *)
Lemma sort_desc_stable_head l p rest :
  sort_desc_stable l = p :: rest ->
  exists i, nth_error l i = Some p
            /\ forall j q, (j < i)%nat -> nth_error l j = Some q ->
                           (snd q < snd p)%nat.
Proof.
  revert p rest. induction l as [|a l IH]; intros p rest H; [discriminate|].
  unfold sort_desc_stable in *. cbn [sort_by fold_right] in H.
  fold (sort_by before_stable l) in H.
  destruct (sort_by before_stable l) as [|q s] eqn:E.
  - cbn in H. inversion H; subst. exists 0%nat. split; [reflexivity|].
    intros j q Hj. lia.
  - cbn [insert_by] in H. unfold before_stable at 1 in H.
    destruct (Nat.leb_spec (snd q) (snd a)) as [Hle|Hlt].
    + inversion H; subst. exists 0%nat. split; [reflexivity|].
      intros j q' Hj. lia.
    + inversion H; subst. destruct (IH p s eq_refl) as [i [Hi Hbefore]].
      exists (S i). split; [exact Hi|].
      intros [|j] q' Hj Hq'.
      * cbn in Hq'. inversion Hq'; subst. exact Hlt.
      * apply (Hbefore j); [lia|exact Hq'].
Qed.

Lemma length_filter_map {A B : Type} (p : B -> bool) (f : A -> B) (l : list A) :
  List.length (filter p (map f l)) = List.length (filter (fun a => p (f a)) l).
Proof.
  induction l as [|a l IH]; [reflexivity|]. cbn. destruct (p (f a)); cbn; lia.
Qed.

Section AnalyzerFacts.

Variable quantile95 : list Q -> Q.
Variable col : list Q.
Variable step : positive.

Local Abbreviation edge := (break_at (lower col) step).

Lemma edge_mono (i j : nat) : (i <= j)%nat -> edge i <= edge j.
Proof. unfold break_at. nia. Qed.

Lemma upper_gt_lower : lower col < upper quantile95 col step.
Proof.
  unfold upper. destruct (Z.leb_spec (py_trunc (quantile95 col)) (lower col)); lia.
Qed.

Lemma bin_edges_shape :
  exists k : nat,
    bin_edges quantile95 col step = map edge (seq 0 (S (S k)))
    /\ upper quantile95 col step <= edge (S k)
       < upper quantile95 col step + Z.pos step.
Proof.
  pose proof upper_gt_lower as Hul.
  pose proof (range_len_span (lower col) (upper quantile95 col step + Z.pos step)
                step ltac:(lia)) as Hspan. cbn zeta in Hspan.
  unfold bin_edges, py_range.
  set (n := range_len _ _ _) in *.
  destruct n as [|[|k]]; [lia|lia|].
  exists k. split; [reflexivity|]. unfold break_at. lia.
Qed.

End AnalyzerFacts.


Lemma category_counts_head (e : nat -> Z) (k : nat) (out : list (option nat)) :
  exists rest,
    category_counts (map e (seq 0 (S (S k)))) out
    = (mkInterval (e 0%nat) (e 1%nat), List.length (filter (has_code 0) out)) :: rest.
Proof.
  unfold category_counts. rewrite categories_breaks, length_map, length_seq.
  cbn [seq map combine fst snd]. eexists. reflexivity.
Qed.

Lemma filter_length_pos {A : Type} (p : A -> bool) (l : list A) (a : A) :
  In a l -> p a = true -> (1 <= List.length (filter p l))%nat.
Proof.
  intros Hin Hp. assert (H : In a (filter p l)) by (apply filter_In; auto).
  destruct (filter p l); [destruct H|cbn; lia].
Qed.

Lemma in_span_iff (first last : Z) (x : Q) :
  in_span first last x = true <-> (inject_Z first <= x /\ x <= inject_Z last)%Q.
Proof.
  unfold in_span. now rewrite andb_true_iff, !Qle_bool_iff.
Qed.

(** C5, as the code has it. For a non-empty column the breaks are
    [int(min)], [int(min) + step], ... up to the last one below
    [upper + step], which is at least [upper]; there are at least two. The
    bins between consecutive breaks are of width [step], each closed on the
    right and open on the left, the first one holding its left end as well;
    a value gets the code of the one bin it lies in, the values that get a
    code are those between the first and the last break, and each of them
    is counted in one category count. *)
Theorem interval_bins_right_closed (quantile95 : list Q -> Q) (col : list Q)
    (step : positive) :
  col <> [] ->
  let bins := bin_edges quantile95 col step in
  let edge := break_at (lower col) step in
  exists k : nat,
    bins = map edge (seq 0 (S (S k)))
    /\ edge 0%nat = py_trunc (col_min col)
    /\ (forall i, edge (S i) - edge i = Z.pos step)
    /\ upper quantile95 col step <= edge (S k)
       < upper quantile95 col step + Z.pos step
    /\ categories bins
       = map (fun i => mkInterval (edge i) (edge (S i))) (seq 0 (S k))
    /\ (forall x i,
          cut_one bins x = Some i <->
          (i <= k)%nat
          /\ ((inject_Z (edge i) < x /\ x <= inject_Z (edge (S i)))%Q
              \/ (i = 0%nat /\ x == inject_Z (edge 0%nat))))
    /\ (forall x,
          in_span (edge 0%nat) (edge (S k)) x = true <->
          exists i, cut_one bins x = Some i)
    /\ list_sum (map snd (category_counts bins (map (cut_one bins) col)))
       = List.length (filter (in_span (edge 0%nat) (edge (S k))) col).
Proof.
  intros _ bins edge. subst bins.
  destruct (bin_edges_shape quantile95 col step) as [k [Hb Hlast]].
  fold edge in Hb, Hlast. rewrite Hb.
  assert (Hmono : forall i j, (i <= j)%nat -> edge i <= edge j)
    by (intros; now apply edge_mono).
  assert (Hspec : forall x i,
             cut_one (map edge (seq 0 (S (S k)))) x = Some i <->
             (i <= k)%nat
             /\ ((inject_Z (edge i) < x /\ x <= inject_Z (edge (S i)))%Q
                 \/ (i = 0%nat /\ x == inject_Z (edge 0%nat)))).
  { intros x i. rewrite (cut_one_spec edge Hmono x (S (S k)) i).
    rewrite Nat.add_1_r. split; intros [H1 H2]; (split; [lia|exact H2]). }
  assert (Hrange : forall x,
             in_span (edge 0%nat) (edge (S k)) x = true <->
             exists i, cut_one (map edge (seq 0 (S (S k)))) x = Some i).
  { intros x. rewrite in_span_iff. split.
    - intros H. apply (cut_one_in_range edge Hmono x (S (S k))); [|lia].
      now replace (S (S k) - 1)%nat with (S k) by lia.
    - intros [i H]. apply (cut_one_some_in_range edge Hmono) in H.
      now replace (S (S k) - 1)%nat with (S k) in H by lia. }
  exists k.
  split; [reflexivity|].
  split; [unfold edge, break_at, lower; lia|].
  split; [intros i; unfold edge, break_at; lia|].
  split; [exact Hlast|].
  split; [apply categories_breaks|].
  split; [exact Hspec|].
  split; [exact Hrange|].
  rewrite category_counts_counts, counts_sum, length_filter_map.
  rewrite categories_breaks, length_map, length_seq.
  f_equal. apply filter_ext. intros x.
  destruct (cut_one (map edge (seq 0 (S (S k)))) x) as [i|] eqn:E.
  - assert (H : in_span (edge 0%nat) (edge (S k)) x = true)
      by (apply Hrange; eauto).
    rewrite H. apply Hspec in E as [Hi _]. unfold code_below.
    apply Nat.ltb_lt. lia.
  - destruct (in_span (edge 0%nat) (edge (S k)) x) eqn:H; [|reflexivity].
    apply Hrange in H as [i H]. congruence.
Qed.

Lemma interval_bins_right_closed_witness :
  exists k : nat,
    bin_edges quantile_linear col_a 5
    = map (break_at (lower col_a) 5) (seq 0 (S (S k)))
    /\ (forall x i,
          cut_one (bin_edges quantile_linear col_a 5) x = Some i <->
          (i <= k)%nat
          /\ ((inject_Z (break_at (lower col_a) 5 i) < x
               /\ x <= inject_Z (break_at (lower col_a) 5 (S i)))%Q
              \/ (i = 0%nat /\ x == inject_Z (break_at (lower col_a) 5 0)))).
Proof.
  destruct (interval_bins_right_closed quantile_linear col_a 5)
    as [k [H1 [_ [_ [_ [_ [H2 _]]]]]]].
  - vm_compute. discriminate.
  - exists k. split; [exact H1|exact H2].
Defined.

(** C5 as stated fails. On the column 0, 5, 5, 12 with step 5 the lower
    bound is 0 and the upper bound 10, and the breaks are 0, 5, 10: the value
    5 gets the bin from 0 to 5, which it closes on the right, and the value
    12, which lies in [0, 10 + 5), gets no bin. *)
Lemma interval_bins_left_closed_counterexample :
  lower col_a = 0
  /\ upper quantile_linear col_a 5 = 10
  /\ bin_edges quantile_linear col_a 5 = [0; 5; 10]
  /\ categories [0; 5; 10] = [mkInterval 0 5; mkInterval 5 10]
  /\ cut_one [0; 5; 10] (inject_Z 5) = Some 0%nat
  /\ cut_one [0; 5; 10] (inject_Z 12) = None
  /\ ~ (forall x, In x col_a ->
          (inject_Z (lower col_a) <= x
           /\ x < inject_Z (upper quantile_linear col_a 5 + 5))%Q ->
          exists i,
            cut_one (bin_edges quantile_linear col_a 5) x = Some i
            /\ (inject_Z (break_at (lower col_a) 5 i) <= x
                /\ x < inject_Z (break_at (lower col_a) 5 (S i)))%Q).
Proof.
  repeat split; try reflexivity.
  intros H. destruct (H (inject_Z 12)) as [i [Hc _]].
  - right. right. right. left. reflexivity.
  - split; vm_compute; [discriminate|reflexivity].
  - vm_compute in Hc. discriminate Hc.
Qed.

(** ** The bin returned *)

Section BestRange.

Variable quantile95 : list Q -> Q.
Variable sort_values : list (Interval * nat) -> list (Interval * nat).

(** What is taken of [sort_values(ascending=False)]: it reorders the
    series, and the counts come out in descending order. *)
Hypothesis sort_perm : forall l, Permutation l (sort_values l).
Hypothesis sort_desc : forall l, descending (sort_values l).

(** The pair returned for a non-empty column is one of the category counts,
    and no category has a higher count. *)
Lemma analyze_best_range_max (col : list Q) (step : positive) :
  col <> [] ->
  let bins := bin_edges quantile95 col step in
  let counts := category_counts bins (map (cut_one bins) col) in
  exists iv n,
    analyze_best_range quantile95 sort_values col step = (Some iv, n)
    /\ In (iv, n) counts
    /\ forall p, In p counts -> (snd p <= n)%nat.
Proof.
  intros Hne bins counts.
  assert (Hperm : Permutation counts (sort_values (sort_values counts))).
  { etransitivity; [apply sort_perm|apply sort_perm]. }
  assert (Hlen : (1 <= List.length counts)%nat).
  { subst counts bins.
    destruct (bin_edges_shape quantile95 col step) as [k [Hb _]].
    rewrite category_counts_length, Hb, categories_breaks, length_map, length_seq.
    lia. }
  assert (Hres : analyze_best_range quantile95 sort_values col step
                 = match sort_values (sort_values counts) with
                   | [] => (None, 0%nat)
                   | (iv, n) :: _ => (Some iv, n)
                   end).
  { destruct col; [congruence|reflexivity]. }
  rewrite Hres. pose proof (sort_desc (sort_values counts)) as Hd.
  destruct (sort_values (sort_values counts)) as [|[iv n] rest] eqn:E.
  - apply Permutation_length in Hperm. cbn in Hperm. lia.
  - exists iv, n. split; [reflexivity|]. split.
    + eapply Permutation_in; [symmetry; exact Hperm|now left].
    + intros p Hp. eapply Permutation_in in Hp; [|exact Hperm].
      destruct Hp as [<-|Hp]; [cbn; lia|].
      inversion Hd as [|? ? _ Hall]; subst.
      rewrite Forall_forall in Hall. exact (Hall p Hp).
Qed.

(** C10, as the code has it. For a non-empty column whose minimum is not
    negative, [int] of the minimum is its floor, the minimum gets the first
    bin, and [analyze_best_range] returns an interval with a count of at
    least 1. *)
Theorem analyze_best_range_nonempty (col : list Q) (step : positive) :
  col <> [] -> (0 <= col_min col)%Q ->
  In (col_min col) col
  /\ (forall z, In z col -> (col_min col <= z)%Q)
  /\ lower col = Qfloor (col_min col)
  /\ cut_one (bin_edges quantile95 col step) (col_min col) = Some 0%nat
  /\ exists iv n,
       analyze_best_range quantile95 sort_values col step = (Some iv, n)
       /\ (1 <= n)%nat.
Proof.
  intros Hne Hmin.
  pose proof (col_min_in col Hne) as Hin.
  pose proof (py_trunc_nonneg (col_min col) Hmin) as [Hlo Hhi].
  assert (Hcut : cut_one (bin_edges quantile95 col step) (col_min col) = Some 0%nat).
  { destruct (bin_edges_shape quantile95 col step) as [k [Hb _]]. rewrite Hb.
    apply (cut_one_spec (break_at (lower col) step)
             (edge_mono col step) (col_min col) (S (S k)) 0).
    split; [lia|].
    assert (E0 : break_at (lower col) step 0 = py_trunc (col_min col))
      by (unfold break_at, lower; lia).
    assert (E1 : py_trunc (col_min col) + 1 <= break_at (lower col) step 1)
      by (unfold break_at, lower; lia).
    rewrite Zle_Qle in E1. rewrite E0. cbn [Nat.add].
    apply Qle_lteq in Hlo as [Hlt|Heq].
    - left. split; [exact Hlt|]. lra.
    - right. split; [reflexivity|]. symmetry. exact Heq. }
  split; [exact Hin|]. split; [apply col_min_le|]. split.
  { unfold lower, py_trunc, Qfloor. destruct (col_min col) as [a b].
    cbn [Qnum Qden]. apply Z.quot_div_nonneg; [|reflexivity].
    unfold Qle in Hmin. cbn in Hmin. lia. }
  split; [exact Hcut|].
  destruct (analyze_best_range_max col step Hne) as [iv [n [Hres [_ Hmax]]]].
  exists iv, n. split; [exact Hres|].
  destruct (bin_edges_shape quantile95 col step) as [k [Hb _]].
  destruct (category_counts_head (break_at (lower col) step) k
              (map (cut_one (bin_edges quantile95 col step)) col)) as [rest Hhead].
  rewrite <- Hb in Hhead.
  specialize (Hmax _ (eq_ind_r (fun l => In _ l) (in_eq _ rest) Hhead)).
  cbn [snd] in Hmax.
  eapply Nat.le_trans; [|exact Hmax].
  apply (filter_length_pos _ _ (Some 0%nat)); [|reflexivity].
  rewrite <- Hcut. now apply in_map.
Qed.

End BestRange.

Lemma analyze_best_range_nonempty_witness :
  exists iv n,
    analyze_best_range quantile_linear sort_desc_stable col_b 5 = (Some iv, n)
    /\ (1 <= n)%nat.
Proof.
  apply (analyze_best_range_nonempty quantile_linear sort_desc_stable
           sort_desc_stable_perm sort_desc_stable_descending col_b 5).
  - vm_compute. discriminate.
  - vm_compute. discriminate.
Defined.

(** C10 as stated fails. [int] truncates toward zero, so for a negative
    minimum that is not an integer the lower bound lies above the minimum:
    on the one-value column -0.5 with step 5 the only bin is the one from 0
    to 5, the value gets no bin, and the count returned is 0. *)
Lemma analyze_best_range_zero_count_counterexample :
  col_negative <> []
  /\ lower col_negative = 0
  /\ bin_edges quantile_linear col_negative 5 = [0; 5]
  /\ cut_one [0; 5] (-1 # 2)%Q = None
  /\ analyze_best_range quantile_linear sort_desc_stable col_negative 5
     = (Some (mkInterval 0 5), 0%nat)
  /\ ~ (forall col step, col <> [] ->
          exists iv n,
            analyze_best_range quantile_linear sort_desc_stable col step
            = (Some iv, n) /\ (1 <= n)%nat).
Proof.
  repeat split; try reflexivity; try discriminate.
  intros H. destruct (H col_negative 5%positive) as [iv [n [Hr Hn]]];
    [discriminate|].
  vm_compute in Hr. inversion Hr; subst. lia.
Qed.

Lemma map_snd_combine_seq {A : Type} (l : list A) (s : nat) :
  map snd (combine (seq s (List.length l)) l) = l.
Proof.
  revert s. induction l as [|a l IH]; intros s; [reflexivity|].
  cbn [List.length seq combine map snd]. f_equal. apply IH.
Qed.

(** The count series lists the categories in their order. *)
Lemma category_counts_intervals (bins : list Z) (out : list (option nat)) :
  map fst (category_counts bins out) = categories bins.
Proof.
  unfold category_counts. rewrite map_map. cbn [fst]. apply map_snd_combine_seq.
Qed.

Lemma analyze_best_range_unfold (quantile95 : list Q -> Q)
    (sort_values : list (Interval * nat) -> list (Interval * nat))
    (col : list Q) (step : positive) :
  col <> [] ->
  analyze_best_range quantile95 sort_values col step
  = match sort_values
            (sort_values
               (category_counts (bin_edges quantile95 col step)
                  (map (cut_one (bin_edges quantile95 col step)) col))) with
    | [] => (None, 0%nat)
    | (iv, n) :: _ => (Some iv, n)
    end.
Proof. destruct col; [congruence|reflexivity]. Qed.

(** X17. For a non-empty column the bin returned has the maximum count,
    [sort_values] being taken to reorder the count series into descending
    order. Which of several bins with that count is returned is left to
    [sort_values], the code adding no tie-break of its own: it is the first
    of them, in the order of the categories (which is the order of their
    starts), when [sort_values] keeps equal counts in the order they
    come. *)
Theorem analyze_best_range_tie_break (quantile95 : list Q -> Q)
    (sort_values : list (Interval * nat) -> list (Interval * nat))
    (col : list Q) (step : positive) :
  (forall l, Permutation l (sort_values l)) ->
  (forall l, descending (sort_values l)) ->
  col <> [] ->
  let bins := bin_edges quantile95 col step in
  let counts := category_counts bins (map (cut_one bins) col) in
  map fst counts = categories bins
  /\ exists iv n,
       analyze_best_range quantile95 sort_values col step = (Some iv, n)
       /\ In (iv, n) counts
       /\ (forall p, In p counts -> (snd p <= n)%nat)
       /\ ((forall l, sort_values l = sort_desc_stable l) ->
           exists i, nth_error counts i = Some (iv, n)
                     /\ forall j q, (j < i)%nat -> nth_error counts j = Some q ->
                                    (snd q < n)%nat).
Proof.
  intros Hperm Hdesc Hne bins counts.
  split; [apply category_counts_intervals|].
  destruct (analyze_best_range_max quantile95 sort_values Hperm Hdesc col step Hne)
    as [iv [n [Hres [Hin Hmax]]]].
  exists iv, n. split; [exact Hres|]. split; [exact Hin|]. split; [exact Hmax|].
  intros Hstable.
  rewrite analyze_best_range_unfold in Hres by exact Hne.
  fold bins in Hres. fold counts in Hres.
  rewrite !Hstable in Hres.
  rewrite (sort_desc_stable_fixed (sort_desc_stable counts)) in Hres
    by apply sort_desc_stable_descending.
  destruct (sort_desc_stable counts) as [|[iv' n'] rest] eqn:E; [discriminate|].
  inversion Hres; subst iv' n'.
  destruct (sort_desc_stable_head counts (iv, n) rest E) as [i [Hi Hb]].
  exists i. split; [exact Hi|]. intros j q Hj Hq. exact (Hb j q Hj Hq).
Qed.

Lemma analyze_best_range_tie_break_witness :
  exists iv n,
    analyze_best_range quantile_linear sort_desc_stable col_b 5 = (Some iv, n)
    /\ forall p,
         In p (category_counts (bin_edges quantile_linear col_b 5)
                 (map (cut_one (bin_edges quantile_linear col_b 5)) col_b)) ->
         (snd p <= n)%nat.
Proof.
  destruct (analyze_best_range_tie_break quantile_linear sort_desc_stable col_b 5
              sort_desc_stable_perm sort_desc_stable_descending)
    as [_ [iv [n [H1 [_ [H2 _]]]]]].
  - vm_compute. discriminate.
  - exists iv, n. split; [exact H1|exact H2].
Defined.

(* ================================================================== *)
(** * Further properties of [process_data] *)

(** ** The pipeline is row by row *)

Lemma filter_twice {A : Type} (p q : A -> bool) (l : list A) :
  filter p (filter q l) = filter (fun a => q a && p a) l.
Proof.
  induction l as [|a l IH]; [reflexivity|]. cbn.
  destruct (q a); cbn; [destruct (p a)|]; now rewrite IH.
Qed.

Lemma filter_all {A : Type} (p : A -> bool) (l : list A) :
  (forall a, p a = true) -> filter p l = l.
Proof.
  intros H. induction l as [|a l IH]; [reflexivity|]. cbn. now rewrite H, IH.
Qed.

Lemma filters_as_one (dl : list pystr) (tf : pystr) (df : list RawRecord) :
  filter_subject tf (filter_district dl df) = filter (passes_filters dl tf) df.
Proof.
  unfold filter_subject, filter_district, passes_filters.
  destruct dl as [|d dl']; destruct (PyStr.eqb tf tok_fangdi);
    try destruct (PyStr.eqb tf tok_tudi);
    rewrite ?filter_twice; try (apply filter_ext; intros r; cbn; now rewrite ?andb_true_r).
  symmetry. now apply filter_all.
Qed.

Lemma flat_map_filter {A B : Type} (p : A -> bool) (g : A -> list B) (l : list A) :
  flat_map g (filter p l) = flat_map (fun a => if p a then g a else []) l.
Proof.
  induction l as [|a l IH]; [reflexivity|]. cbn.
  destruct (p a); cbn; now rewrite IH.
Qed.


(** [process_data] is [process_row] on each row, the results put end to
    end. *)
Lemma process_data_rows (to_numeric : pystr -> float) (dl : list pystr)
    (tf : pystr) (df : list RawRecord) :
  process_data to_numeric dl tf df = flat_map (process_row to_numeric dl tf) df.
Proof.
  unfold process_data, derived_records. rewrite filters_as_one.
  unfold process_row. rewrite <- (flat_map_filter (passes_filters dl tf)).
  induction (filter (passes_filters dl tf) df) as [|r l IH]; [reflexivity|].
  cbn [map dropna_year flat_map]. unfold clean_row. rewrite raw_derive.
  destruct (parse_roc_year (trade_date r)) as [y|].
  - cbn [app map filter]. fold (dropna_year (map (derive to_numeric) l)).
    rewrite IH. now destruct (in_band (add_age (derive to_numeric r, y))).
  - cbn [app]. exact IH.
Qed.

Lemma process_row_length tn dl tf r :
  (List.length (process_row tn dl tf r) <= 1)%nat.
Proof.
  unfold process_row. destruct (passes_filters dl tf r); [|cbn; lia].
  destruct (clean_row tn r) as [c|]; [|cbn; lia].
  destruct (in_band c); cbn; lia.
Qed.

Lemma process_row_raw tn dl tf r c :
  In c (process_row tn dl tf r) ->
  process_row tn dl tf r = [c] /\ raw (derived c) = r
  /\ passes_filters dl tf r = true /\ clean_row tn r = Some c
  /\ in_band c = true.
Proof.
  unfold process_row. destruct (passes_filters dl tf r); [|intros []].
  destruct (clean_row tn r) as [c'|] eqn:E; [|intros []].
  destruct (in_band c') eqn:B; [|intros []].
  intros [<-|[]]. repeat split; try reflexivity; try assumption.
  eapply clean_row_raw; eassumption.
Qed.

(** X1. [process_data] keeps no state between rows: on a table made of
    two parts it returns what it returns on the first part followed by what
    it returns on the second, and it never returns more rows than it was
    given. *)
Theorem process_data_app (to_numeric : pystr -> float) (dl : list pystr)
    (tf : pystr) (df1 df2 : list RawRecord) :
  process_data to_numeric dl tf (df1 ++ df2)
  = process_data to_numeric dl tf df1 ++ process_data to_numeric dl tf df2
  /\ (List.length (process_data to_numeric dl tf df1) <= List.length df1)%nat.
Proof.
  rewrite !process_data_rows. split; [apply flat_map_app|].
  induction df1 as [|r df IH]; [cbn; lia|].
  cbn [flat_map]. rewrite length_app.
  pose proof (process_row_length to_numeric dl tf r). cbn [List.length]. lia.
Qed.

(** X2. The rows [process_data] returns are rows of the table, each at most
    once and in the order of the table: the raw parts of the result are the
    table with some rows left out. *)
Theorem process_data_subseq (to_numeric : pystr -> float) (dl : list pystr)
    (tf : pystr) (df : list RawRecord) :
  subseq (map (fun c => raw (derived c)) (process_data to_numeric dl tf df)) df.
Proof.
  rewrite process_data_rows. induction df as [|r df IH]; [constructor|].
  cbn [flat_map]. rewrite map_app.
  destruct (process_row to_numeric dl tf r) as [|c l] eqn:E.
  - cbn. now constructor.
  - pose proof (process_row_length to_numeric dl tf r) as Hlen.
    rewrite E in Hlen. destruct l; [|cbn in Hlen; lia].
    assert (Hc : In c (process_row to_numeric dl tf r)) by (rewrite E; now left).
    apply process_row_raw in Hc as [_ [Hr _]].
    cbn. rewrite Hr. now constructor.
Qed.

Lemma in_process_data_row tn dl tf df c :
  In c (process_data tn dl tf df) <->
  exists r, In r df /\ In c (process_row tn dl tf r).
Proof. rewrite process_data_rows. apply in_flat_map. Qed.

(** ** What the filters let through *)

(** X3. With a non-empty district list, every row returned has a district,
    and that district is one of the list; a row whose district is missing is
    never returned. *)
Theorem district_filter_members (to_numeric : pystr -> float) (dl : list pystr)
    (tf : pystr) (df : list RawRecord) (c : CleanRecord) :
  dl <> [] ->
  In c (process_data to_numeric dl tf df) ->
  exists d, district (raw (derived c)) = Some d /\ In d dl.
Proof.
  intros Hdl Hin. apply in_process_data_row in Hin as [r [_ Hc]].
  apply process_row_raw in Hc as [_ [Hr [Hp _]]]. rewrite Hr.
  unfold passes_filters in Hp. apply andb_true_iff in Hp as [Hp _].
  destruct dl as [|d0 dl']; [congruence|]. unfold isin in Hp.
  destruct (district r) as [d|]; [|discriminate].
  apply existsb_exists in Hp as [x [Hx Hd]].
  apply pystr_eqb_eq in Hd. subst x. eauto.
Qed.

Lemma district_filter_members_witness :
  exists d,
    district (raw (derived (add_age (derive to_numeric_digits douliu_row, 2024))))
    = Some d
    /\ In d [tok_huwei; tok_douliu].
Proof.
  apply (district_filter_members to_numeric_digits [tok_huwei; tok_douliu]
           tok_fangdi [scenario_row; douliu_row]).
  - discriminate.
  - vm_compute. left. reflexivity.
Defined.

(** X4. Under the filter [房地] every row returned has a label that
    contains [房地] or [建物]; under [土地] every row returned has a label
    that contains [土地] and not [房地]; and any other value of the filter,
    not only [全部], filters nothing. *)
Theorem subject_filter_modes (to_numeric : pystr -> float) (dl : list pystr)
    (tf : pystr) (df : list RawRecord) :
  (forall c, In c (process_data to_numeric dl tok_fangdi df) ->
     contains tok_fangdi (subject (raw (derived c))) = true
     \/ contains tok_jianwu (subject (raw (derived c))) = true)
  /\ (forall c, In c (process_data to_numeric dl tok_tudi df) ->
        contains tok_tudi (subject (raw (derived c))) = true
        /\ contains tok_fangdi (subject (raw (derived c))) = false)
  /\ (tf <> tok_fangdi -> tf <> tok_tudi ->
      process_data to_numeric dl tf df = process_data to_numeric dl tok_all df).
Proof.
  split; [|split].
  - intros c Hin. apply in_process_data_row in Hin as [r [_ Hc]].
    apply process_row_raw in Hc as [_ [Hr [Hp _]]]. rewrite Hr.
    unfold passes_filters in Hp. apply andb_true_iff in Hp as [_ Hp].
    cbn in Hp. unfold keep_fangdi in Hp. now apply orb_true_iff in Hp.
  - intros c Hin. apply in_process_data_row in Hin as [r [_ Hc]].
    apply process_row_raw in Hc as [_ [Hr [Hp _]]]. rewrite Hr.
    unfold passes_filters in Hp. apply andb_true_iff in Hp as [_ Hp].
    cbn in Hp. unfold keep_tudi in Hp. apply andb_true_iff in Hp as [H1 H2].
    split; [exact H1|]. now apply negb_true_iff in H2.
  - intros H1 H2. rewrite !process_data_rows. apply flat_map_ext. intros r.
    unfold process_row, passes_filters.
    destruct (PyStr.eqb tf tok_fangdi) eqn:E1;
      [apply pystr_eqb_eq in E1; congruence|].
    destruct (PyStr.eqb tf tok_tudi) eqn:E2;
      [apply pystr_eqb_eq in E2; congruence|].
    reflexivity.
Qed.

Lemma subject_filter_modes_witness :
  process_data to_numeric_digits [] (lit "land") [scenario_row; douliu_row]
  = process_data to_numeric_digits [] tok_all [scenario_row; douliu_row].
Proof.
  apply (proj2 (proj2 (subject_filter_modes to_numeric_digits [] (lit "land")
                         [scenario_row; douliu_row]))); discriminate.
Defined.


(** ** The unit price of the source is not read *)

Lemma flat_map_map {A B C : Type} (g : B -> list C) (h : A -> B) (l : list A) :
  flat_map g (map h l) = flat_map (fun a => g (h a)) l.
Proof.
  induction l as [|a l IH]; [reflexivity|]. cbn. now rewrite IH.
Qed.

(** X6. The text of the [單價元平方公尺] column has no part in the result:
    whatever is put in that column, the same rows are returned, with the
    same total price, area, unit price, year and age. *)
Theorem source_unit_price_ignored (to_numeric : pystr -> float)
    (dl : list pystr) (tf : pystr) (df : list RawRecord)
    (u : RawRecord -> cell) :
  map computed_columns
    (process_data to_numeric dl tf (map (fun r => with_unit_price_sqm r (u r)) df))
  = map computed_columns (process_data to_numeric dl tf df).
Proof.
  rewrite !process_data_rows, flat_map_map.
  induction df as [|r df IH]; [reflexivity|].
  cbn [flat_map]. rewrite !map_app, IH. f_equal.
  unfold process_row.
  change (passes_filters dl tf (with_unit_price_sqm r (u r)))
    with (passes_filters dl tf r).
  destruct (passes_filters dl tf r); [|reflexivity].
  unfold clean_row. cbn [with_unit_price_sqm trade_date].
  destruct (parse_roc_year (trade_date r)) as [y|]; [|reflexivity].
  change (in_band (add_age (derive to_numeric (with_unit_price_sqm r (u r)), y)))
    with (in_band (add_age (derive to_numeric r, y))).
  now destruct (in_band (add_age (derive to_numeric r, y))).
Qed.

(* ================================================================== *)
(** * Further binary64 facts *)

(** ** Rounding never gives NaN *)

Lemma iter_pos_invariant {A : Type} (P : A -> Prop) (f : A -> A) :
  (forall a, P a -> P (f a)) -> forall n a, P a -> P (iter_pos f n a).
Proof.
  intros Hf. induction n as [n IH|n IH|]; intros a Ha; cbn; auto.
Qed.

Lemma shr_1_nonneg (mrs : shr_record) : 0 <= shr_m mrs -> 0 <= shr_m (shr_1 mrs).
Proof.
  destruct mrs as [m r s]. cbn [shr_m]. intros H.
  destruct m as [|[p|p|]|p]; cbn; lia.
Qed.

Lemma shr_fexp_nonneg (m e : Z) (l : location) :
  0 <= m -> 0 <= shr_m (fst (shr_fexp prec emax m e l)).
Proof.
  intros H. unfold shr_fexp, shr.
  assert (H0 : 0 <= shr_m (shr_record_of_loc m l))
    by (destruct l as [|[| |]]; exact H).
  destruct (fexp prec emax (Zdigits2 m + e) - e) as [|p|p]; cbn [fst];
    try exact H0.
  apply (iter_pos_invariant (fun mrs => 0 <= shr_m mrs)); [|exact H0].
  apply shr_1_nonneg.
Qed.

Lemma round_nearest_even_nonneg (m : Z) (l : location) :
  0 <= m -> 0 <= round_nearest_even m l.
Proof.
  intros H. destruct l as [|[| |]]; cbn; try lia. destruct (Z.even m); lia.
Qed.

(** What rounding returns for a mantissa that is not negative: a zero, a
    finite float or an infinity of the sign asked for. *)
Lemma binary_round_aux_sign (sx : bool) (mx ex : Z) (lx : location) :
  0 <= mx ->
  binary_round_aux prec emax sx mx ex lx = S754_zero sx
  \/ binary_round_aux prec emax sx mx ex lx = S754_infinity sx
  \/ exists m e, binary_round_aux prec emax sx mx ex lx = S754_finite sx m e.
Proof.
  intros H. unfold binary_round_aux.
  pose proof (shr_fexp_nonneg mx ex lx H) as H1.
  destruct (shr_fexp prec emax mx ex lx) as [mrs' e']. cbn [fst] in H1.
  pose proof (shr_fexp_nonneg _ e' loc_Exact
                (round_nearest_even_nonneg _ (loc_of_shr_record mrs') H1)) as H2.
  destruct (shr_fexp prec emax
              (round_nearest_even (shr_m mrs') (loc_of_shr_record mrs')) e'
              loc_Exact) as [mrs'' e'']. cbn [fst] in H2.
  destruct (shr_m mrs'') as [|m|m]; [now left| |lia].
  destruct (e'' <=? emax - prec); [right; right; eauto|right; now left].
Qed.

Lemma div_core_nonneg (m1 m2 : positive) (e1 e2 : Z) :
  0 <= fst (fst (SFdiv_core_binary prec emax (Z.pos m1) e1 (Z.pos m2) e2)).
Proof.
  unfold SFdiv_core_binary.
  set (s := e1 - e2 - _).
  set (m' := match s with Z0 => Z.pos m1 | Z.pos _ => Z.shiftl (Z.pos m1) s
                     | Z.neg _ => 0 end).
  assert (Hm : 0 <= m').
  { subst m'. destruct s; try lia. apply Z.shiftl_nonneg. lia. }
  pose proof (Z.div_pos m' (Z.pos m2) Hm eq_refl) as Hq.
  unfold Z.div in Hq. destruct (Z.div_eucl m' (Z.pos m2)) as [q r].
  exact Hq.
Qed.

(** The product and the quotient of two floats of which none is NaN are
    NaN only in the cases [0 * inf], [0 / 0] and [inf / inf]. *)
Lemma mul_finite_not_nan (x : float) (s : bool) (m : positive) (e : Z) :
  isnan x = false -> isnan (F64.mul x (S754_finite s m e)) = false.
Proof.
  destruct x as [sx|sx| |sx mx ex]; try reflexivity; [discriminate|].
  intros _. unfold F64.mul, SFmul.
  destruct (binary_round_aux_sign (xorb sx s) (Z.pos (mx * m)) (ex + e) loc_Exact)
    as [H|[H|[m' [e' H]]]]; [lia| | |]; now rewrite H.
Qed.

Lemma div_finite_not_nan (x : float) (s : bool) (m : positive) (e : Z) :
  isnan x = false -> isnan (F64.div x (S754_finite s m e)) = false.
Proof.
  destruct x as [sx|sx| |sx mx ex]; try reflexivity; [discriminate|].
  intros _. unfold F64.div, SFdiv.
  pose proof (div_core_nonneg mx m ex e) as Hq.
  destruct (SFdiv_core_binary prec emax (Z.pos mx) ex (Z.pos m) e) as [[q e'] l].
  cbn [fst] in Hq.
  destruct (binary_round_aux_sign (xorb sx s) q e' l Hq)
    as [H|[H|[m' [e'' H]]]]; now rewrite H.
Qed.

Lemma coerce_not_nan (to_numeric : pystr -> float) (c : cell) :
  isnan (coerce to_numeric c) = false.
Proof. unfold coerce, fillna0. now destruct (to_numeric_cell to_numeric c). Qed.

(** X8. After steps 3 and 4 no numeric column of any row holds NaN: not
    the four coerced columns, and not the total price in 萬元, the area in
    坪 or the unit price computed from them. *)
Theorem derive_no_nan (to_numeric : pystr -> float) (r : RawRecord) :
  let d := derive to_numeric r in
  isnan (total_price d) = false
  /\ isnan (unit_price_sqm d) = false
  /\ isnan (building_area d) = false
  /\ isnan (land_area d) = false
  /\ isnan (total_price_major d) = false
  /\ isnan (area_units d) = false
  /\ isnan (unit_price d) = false.
Proof.
  cbn zeta. cbn [derive total_price unit_price_sqm building_area land_area
                 total_price_major area_units unit_price].
  repeat (split; [apply coerce_not_nan|]).
  split; [apply div_finite_not_nan, coerce_not_nan|]. split.
  - unfold calc_area_units.
    destruct (mask_land _); apply mul_finite_not_nan, coerce_not_nan.
  - unfold calc_unit_price, fillna0.
    now destruct (replace_inf _).
Qed.

(** ** Inside the band *)

Lemma in_band_quotient (p a : float) :
  F64.ltb lit_0_1 (calc_unit_price p a) = true ->
  exists s mp ep ma ea,
    p = S754_finite s mp ep /\ a = S754_finite s ma ea
    /\ calc_unit_price p a = F64.div p a.
Proof.
  destruct p as [sp|sp| |sp mp ep]; destruct a as [sa|sa| |sa ma ea].
  all: try (lazymatch goal with
            | |- context [calc_unit_price (S754_finite _ _ _) (S754_finite _ _ _)] =>
                fail
            | _ => idtac
            end;
            repeat match goal with b : bool |- _ => destruct b end;
            cbn; discriminate).
  intros H. unfold calc_unit_price, F64.div, SFdiv in *.
  pose proof (div_core_nonneg mp ma ep ea) as Hq.
  destruct (SFdiv_core_binary prec emax (Z.pos mp) ep (Z.pos ma) ea) as [[q e'] l].
  cbn [fst] in Hq.
  destruct (binary_round_aux_sign (xorb sp sa) q e' l Hq)
    as [E|[E|[m' [e'' E]]]]; rewrite E in *.
  - discriminate H.
  - destruct (xorb sp sa); discriminate H.
  - destruct sp, sa; cbn [xorb] in *; try discriminate H;
      eexists _, mp, ep, ma, ea; repeat split; reflexivity.
Qed.

(** X7. Every row [process_data] returns has a finite, non-zero total
    price in 萬元 and a finite, non-zero area in 坪, both of the same sign,
    and its unit price is their quotient as it stands: none of the
    replacements by 0 has been applied to it. *)
Theorem kept_rows_finite (to_numeric : pystr -> float) (dl : list pystr)
    (tf : pystr) (df : list RawRecord) (c : CleanRecord) :
  In c (process_data to_numeric dl tf df) ->
  let d := derived c in
  isfinite (total_price_major d) = true
  /\ isfinite (area_units d) = true
  /\ F64.eqb (total_price_major d) zero = false
  /\ F64.eqb (area_units d) zero = false
  /\ F64.ltb (total_price_major d) zero = F64.ltb (area_units d) zero
  /\ unit_price d = F64.div (total_price_major d) (area_units d).
Proof.
  intros Hin d. subst d.
  apply in_process_data_row in Hin as [r [_ Hc]].
  apply process_row_raw in Hc as [_ [_ [_ [Hc Hb]]]].
  apply clean_row_fields in Hc as [Hd _].
  unfold in_band in Hb. apply andb_true_iff in Hb as [Hb _].
  rewrite Hd in *. cbn [derive unit_price total_price_major area_units] in *.
  apply in_band_quotient in Hb as [s [mp [ep [ma [ea [Hp [Ha Hq]]]]]]].
  rewrite Hq, Hp, Ha. destruct s; repeat split; reflexivity.
Qed.

Lemma kept_rows_finite_witness :
  isfinite (total_price_major (derived scenario_clean)) = true
  /\ isfinite (area_units (derived scenario_clean)) = true.
Proof.
  destruct (kept_rows_finite to_numeric_digits [] tok_all [scenario_row]
              scenario_clean) as [H1 [H2 _]].
  - vm_compute. left. reflexivity.
  - split; [exact H1|exact H2].
Defined.

(* ================================================================== *)
(** * Dates made of digits *)

Lemma digit_val_range (c : N) (d : Z) :
  digit_val c = Some d -> 0 <= d <= 9 /\ (48 <= c <= 57)%N.
Proof.
  unfold digit_val.
  destruct ((48 <=? c) && (c <=? 57))%N eqn:E; [|discriminate].
  apply andb_true_iff in E as [E1 E2].
  apply N.leb_le in E1. apply N.leb_le in E2.
  intros H. inversion H. lia.
Qed.

Lemma digit_plain (c : N) (d : Z) :
  digit_val c = Some d ->
  is_space c = false /\ (c =? minus_sign)%N = false /\ (c =? plus_sign)%N = false.
Proof.
  intros H. apply digit_val_range in H as [_ H].
  assert (E : (c = 48 \/ c = 49 \/ c = 50 \/ c = 51 \/ c = 52 \/ c = 53
               \/ c = 54 \/ c = 55 \/ c = 56 \/ c = 57)%N) by lia.
  repeat (destruct E as [->|E]; [repeat split; reflexivity|]).
  subst c. repeat split; reflexivity.
Qed.

(** Reading a run of digits consumes it all and gives a value between
    [acc * 10^n] and [(acc + 1) * 10^n - 1], [n] being its length. *)
Lemma scan_digits_all (s : pystr) (acc : Z) :
  forallb is_digit s = true ->
  exists v, scan_digits acc s = (v, [])
            /\ acc * 10 ^ Z.of_nat (List.length s) <= v
               < (acc + 1) * 10 ^ Z.of_nat (List.length s).
Proof.
  revert acc. induction s as [|c s IH]; intros acc H.
  - exists acc. cbn. split; [reflexivity|lia].
  - cbn [forallb] in H. apply andb_true_iff in H as [Hc Hs].
    unfold is_digit in Hc. destruct (digit_val c) as [d|] eqn:Hd; [|discriminate].
    apply digit_val_range in Hd as Hr. destruct Hr as [Hr _].
    destruct (IH (10 * acc + d) Hs) as [v [Hv Hb]].
    exists v. cbn [scan_digits]. rewrite Hd. split; [exact Hv|].
    cbn [List.length]. rewrite Nat2Z.inj_succ, Z.pow_succ_r by lia.
    assert (0 < 10 ^ Z.of_nat (List.length s)) by (apply Z.pow_pos_nonneg; lia).
    nia.
Qed.

Lemma py_int_digits (s : pystr) :
  s <> [] -> forallb is_digit s = true ->
  exists v, py_int s = Some v /\ 0 <= v < 10 ^ Z.of_nat (List.length s).
Proof.
  destruct s as [|c s]; [congruence|]. intros _ H.
  cbn [forallb] in H. apply andb_true_iff in H as [Hc Hs].
  unfold is_digit in Hc. destruct (digit_val c) as [d|] eqn:Hd; [|discriminate].
  destruct (digit_plain c d Hd) as [H1 [H2 H3]].
  apply digit_val_range in Hd as Hr. destruct Hr as [Hr _].
  destruct (scan_digits_all s d Hs) as [v [Hv Hb]].
  exists v. unfold py_int. cbn [lstrip]. rewrite H1, H2, H3.
  unfold unsigned_int. rewrite Hd, Hv. cbn [lstrip]. split; [reflexivity|].
  cbn [List.length]. rewrite Nat2Z.inj_succ, Z.pow_succ_r by lia.
  assert (0 < 10 ^ Z.of_nat (List.length s)) by (apply Z.pow_pos_nonneg; lia).
  nia.
Qed.

Lemma forallb_firstn {A : Type} (p : A -> bool) (n : nat) (l : list A) :
  forallb p l = true -> forallb p (firstn n l) = true.
Proof.
  revert n. induction l as [|a l IH]; intros [|n] H; try reflexivity.
  cbn in *. apply andb_true_iff in H as [Ha Hl]. now rewrite Ha, IH.
Qed.

(** X9. A date of six to 4304 characters, all of them ASCII digits, always
    has a year: the digits before the last four (at most 4300 of them,
    which [int] reads whatever the interpreter's limit on digits) read as a
    number [y] between 0 and [10^(n-4) - 1], [n] being the length, and the
    year is [y + 1911], so never before 1911. *)
Theorem digit_date_year (s : pystr) :
  (6 <= List.length s <= 4304)%nat ->
  forallb is_digit s = true ->
  exists y, parse_roc_year (Some s) = Some (y + 1911)
            /\ py_int (drop_last4 s) = Some y
            /\ 0 <= y < 10 ^ Z.of_nat (List.length s - 4).
Proof.
  intros [Hlen _] Hd.
  assert (Hl : List.length (drop_last4 s) = (List.length s - 4)%nat).
  { unfold drop_last4. rewrite length_firstn. lia. }
  destruct (py_int_digits (drop_last4 s)) as [y [Hy Hb]].
  - intros E. rewrite E in Hl. cbn in Hl. lia.
  - unfold drop_last4. now apply forallb_firstn.
  - exists y. rewrite Hl in Hb. split; [|split; assumption].
    unfold parse_roc_year. apply Nat.leb_le in Hlen. now rewrite Hlen, Hy.
Qed.

Lemma digit_date_year_witness :
  exists y, parse_roc_year (Some (lit "1130615")) = Some (y + 1911)
            /\ py_int (drop_last4 (lit "1130615")) = Some y
            /\ 0 <= y < 10 ^ Z.of_nat (List.length (lit "1130615") - 4).
Proof.
  apply (digit_date_year (lit "1130615")).
  - vm_compute. lia.
  - reflexivity.
Defined.

(* ================================================================== *)
(** * Further properties of [analyze_best_range] *)

Lemma combine_map_r {A B : Type} (f : A -> B) (l : list A) :
  combine l (map f l) = map (fun a => (a, f a)) l.
Proof. induction l as [|a l IH]; [reflexivity|]. cbn. now rewrite IH. Qed.

(** The count series, category by category. *)
Lemma category_counts_explicit (e : nat -> Z) (k : nat) (out : list (option nat)) :
  category_counts (map e (seq 0 (S (S k)))) out
  = map (fun i => (mkInterval (e i) (e (S i)),
                   List.length (filter (has_code i) out)))
        (seq 0 (S k)).
Proof.
  unfold category_counts. rewrite categories_breaks, length_map, length_seq.
  rewrite combine_map_r, map_map. reflexivity.
Qed.

(** The pair returned is one of the category counts, whatever order
    [sort_values] gives, as long as it only reorders. *)
Lemma returned_pair_in_counts (quantile95 : list Q -> Q)
    (sort_values : list (Interval * nat) -> list (Interval * nat))
    (col : list Q) (step : positive) :
  (forall l, Permutation l (sort_values l)) ->
  col <> [] ->
  exists iv n,
    analyze_best_range quantile95 sort_values col step = (Some iv, n)
    /\ In (iv, n)
         (category_counts (bin_edges quantile95 col step)
            (map (cut_one (bin_edges quantile95 col step)) col)).
Proof.
  intros Hperm Hne. rewrite analyze_best_range_unfold by exact Hne.
  set (counts := category_counts _ _).
  assert (Hp : Permutation counts (sort_values (sort_values counts)))
    by (etransitivity; apply Hperm).
  assert (Hlen : (1 <= List.length counts)%nat).
  { subst counts. destruct (bin_edges_shape quantile95 col step) as [k [Hb _]].
    rewrite category_counts_length, Hb, categories_breaks, length_map, length_seq.
    lia. }
  destruct (sort_values (sort_values counts)) as [|[iv n] rest] eqn:E.
  - apply Permutation_length in Hp. cbn in Hp. lia.
  - exists iv, n. split; [reflexivity|].
    eapply Permutation_in; [symmetry; exact Hp|now left].
Qed.

Lemma in_bin_iff (first : bool) (iv : Interval) (x : Q) :
  in_bin first iv x = true <->
  (inject_Z (lo iv) < x /\ x <= inject_Z (hi iv))%Q
  \/ (first = true /\ x == inject_Z (lo iv)).
Proof.
  unfold in_bin.
  rewrite orb_true_iff, !andb_true_iff, Qltb_lt, Qle_bool_iff, Qeq_bool_iff.
  reflexivity.
Qed.

(** X10. For a non-empty column the interval returned is one of the bins:
    its right end is the break [int(min) + (i + 1) * step] for a bin index
    [i], below [upper + step]; for every bin but the first its left end is
    the break [step] below (of the first category pandas lowers the left
    end, so nothing is said of it); and the count returned is the number
    of values of the column that get that bin (above the break [step] below
    its right end and at most its right end, or, for the first bin, at
    [int(min)]), hence at most the length of the column. *)
Theorem analyze_best_range_interval (quantile95 : list Q -> Q)
    (sort_values : list (Interval * nat) -> list (Interval * nat))
    (col : list Q) (step : positive) :
  (forall l, Permutation l (sort_values l)) ->
  col <> [] ->
  exists iv n i,
    analyze_best_range quantile95 sort_values col step = (Some iv, n)
    /\ hi iv = lower col + Z.of_nat (S i) * Z.pos step
    /\ hi iv < upper quantile95 col step + Z.pos step
    /\ (i <> 0%nat -> lo iv = hi iv - Z.pos step)
    /\ n = List.length
             (filter (in_bin (i =? 0)%nat
                        (mkInterval (hi iv - Z.pos step) (hi iv))) col)
    /\ (n <= List.length col)%nat.
Proof.
  intros Hperm Hne.
  destruct (returned_pair_in_counts quantile95 sort_values col step Hperm Hne)
    as [iv [n [Hres Hin]]].
  destruct (bin_edges_shape quantile95 col step) as [k [Hb Hlast]].
  rewrite Hb in Hin. rewrite category_counts_explicit in Hin.
  apply in_map_iff in Hin as [i [Hi Hik]]. apply in_seq in Hik.
  pose proof (f_equal fst Hi) as Hiv. pose proof (f_equal snd Hi) as Hn.
  cbn [fst snd] in Hiv, Hn. clear Hi.
  assert (Hcount :
            List.length (filter (has_code i)
                           (map (cut_one (map (break_at (lower col) step)
                                            (seq 0 (S (S k))))) col))
            = List.length
                (filter (in_bin (i =? 0)%nat
                           (mkInterval (break_at (lower col) step i)
                                       (break_at (lower col) step (S i)))) col)).
  { rewrite length_filter_map. f_equal. apply filter_ext. intros x.
    apply eq_true_iff_eq. rewrite in_bin_iff. cbn [lo hi].
    pose proof (cut_one_spec (break_at (lower col) step)
                  (edge_mono col step) x (S (S k)) i) as Hs.
    rewrite Nat.add_1_r in Hs. rewrite Nat.eqb_eq.
    destruct (cut_one (map (break_at (lower col) step) (seq 0 (S (S k)))) x)
      as [j|] eqn:E; cbn [has_code].
    - rewrite Nat.eqb_eq. split.
      + intros ->. destruct Hs as [Hs _]. destruct (Hs eq_refl) as [_ [H|[H1 H2]]].
        * now left.
        * right. subst i. now split.
      + intros H. assert (Some j = Some i) as Hji; [|now inversion Hji].
        apply Hs. split; [lia|].
        destruct H as [H|[H1 H2]]; [now left|right]. subst i. now split.
    - split; [discriminate|]. intros H. exfalso.
      assert (None = Some i) as Hc; [|discriminate Hc].
      apply Hs. split; [lia|].
      destruct H as [H|[H1 H2]]; [now left|right]. subst i. now split. }
  exists (mkInterval (break_at (lower col) step i) (break_at (lower col) step (S i))),
    n, i.
  rewrite <- Hiv in Hres. split; [exact Hres|]. cbn [lo hi].
  replace (break_at (lower col) step (S i) - Z.pos step)
    with (break_at (lower col) step i) by (unfold break_at; lia).
  split; [reflexivity|]. split.
  - pose proof (edge_mono col step (S i) (S k) ltac:(lia)). lia.
  - split; [reflexivity|].
    rewrite <- Hn, Hcount. split; [reflexivity|apply filter_length_le].
Qed.

Lemma analyze_best_range_interval_witness :
  exists iv n i,
    analyze_best_range quantile_linear sort_desc_stable col_b 5 = (Some iv, n)
    /\ hi iv = lower col_b + Z.of_nat (S i) * 5
    /\ hi iv < upper quantile_linear col_b 5 + 5
    /\ (i <> 0%nat -> lo iv = hi iv - 5)
    /\ n = List.length
             (filter (in_bin (i =? 0)%nat (mkInterval (hi iv - 5) (hi iv))) col_b)
    /\ (n <= List.length col_b)%nat.
Proof.
  apply (analyze_best_range_interval quantile_linear sort_desc_stable col_b 5
           sort_desc_stable_perm).
  vm_compute. discriminate.
Defined.

(** ** The hottest unit-price band of a cleaned table *)

Lemma Qval_in_band_nonneg (x : float) :
  F64.ltb lit_0_1 x = true -> (0 <= Qval x)%Q.
Proof.
  destruct x as [s|s| |[|] m e]; intros H;
    try apply Qle_refl; try discriminate H.
  unfold Qval.
  apply Qmult_le_0_compat; [apply Qmult_le_0_compat|].
  - discriminate.
  - unfold Qle. cbn. lia.
  - apply Qpower_0_le. discriminate.
Qed.

Section BestCount.

Variable quantile95 : list Q -> Q.
Variable sort_values : list (Interval * nat) -> list (Interval * nat).
Hypothesis sort_perm : forall l, Permutation l (sort_values l).
Hypothesis sort_desc : forall l, descending (sort_values l).

(** With a minimum that is not negative the first bin holds the minimum,
    so the highest count is at least 1; [int(min)] is not negative either,
    and every bin ends [step] above it or higher. *)
Lemma best_count_pos (col : list Q) (step : positive) :
  col <> [] -> (0 <= col_min col)%Q ->
  exists iv n,
    analyze_best_range quantile95 sort_values col step = (Some iv, n)
    /\ (1 <= n)%nat /\ 0 <= lower col /\ lower col + Z.pos step <= hi iv.
Proof.
  intros Hne Hmin.
  pose proof (py_trunc_nonneg (col_min col) Hmin) as [Hlo Hhi].
  destruct (bin_edges_shape quantile95 col step) as [k [Hb _]].
  assert (Hcut : cut_one (bin_edges quantile95 col step) (col_min col) = Some 0%nat).
  { rewrite Hb.
    apply (cut_one_spec (break_at (lower col) step)
             (edge_mono col step) (col_min col) (S (S k)) 0).
    split; [lia|].
    assert (E0 : break_at (lower col) step 0 = py_trunc (col_min col))
      by (unfold break_at, lower; lia).
    assert (E1 : py_trunc (col_min col) + 1 <= break_at (lower col) step 1)
      by (unfold break_at, lower; lia).
    rewrite Zle_Qle in E1. rewrite E0. cbn [Nat.add].
    apply Qle_lteq in Hlo as [Hlt|Heq].
    - left. split; [exact Hlt|]. lra.
    - right. split; [reflexivity|]. symmetry. exact Heq. }
  destruct (analyze_best_range_max quantile95 sort_values sort_perm sort_desc
              col step Hne) as [iv [n [Hres [Hin Hmax]]]].
  exists iv, n. split; [exact Hres|]. split.
  - destruct (category_counts_head (break_at (lower col) step) k
                (map (cut_one (bin_edges quantile95 col step)) col))
      as [rest Hhead].
    rewrite <- Hb in Hhead.
    specialize (Hmax _ (eq_ind_r (fun l => In _ l) (in_eq _ rest) Hhead)).
    cbn [snd] in Hmax. eapply Nat.le_trans; [|exact Hmax].
    apply (filter_length_pos _ _ (Some 0%nat)); [|reflexivity].
    rewrite <- Hcut. apply in_map. now apply col_min_in.
  - assert (H0 : 0 <= lower col).
    { unfold lower. assert (H : (inject_Z 0 < inject_Z (py_trunc (col_min col) + 1))%Q).
      { eapply Qle_lt_trans; [exact Hmin|exact Hhi]. }
      rewrite <- Zlt_Qlt in H. lia. }
    split; [exact H0|].
    rewrite Hb, category_counts_explicit in Hin.
    apply in_map_iff in Hin as [i [Hi _]].
    pose proof (f_equal fst Hi) as Hiv. cbn [fst] in Hiv. rewrite <- Hiv.
    cbn [hi]. unfold break_at. nia.
Qed.

End BestCount.

Lemma unit_price_column_min_nonneg (to_numeric : pystr -> float)
    (dl : list pystr) (tf : pystr) (df : list RawRecord) :
  process_data to_numeric dl tf df <> [] ->
  unit_price_column (process_data to_numeric dl tf df) <> []
  /\ (0 <= col_min (unit_price_column (process_data to_numeric dl tf df)))%Q.
Proof.
  intros Hne.
  assert (Hcol : unit_price_column (process_data to_numeric dl tf df) <> []).
  { unfold unit_price_column. intros E. apply map_eq_nil in E. contradiction. }
  split; [exact Hcol|].
  pose proof (col_min_in _ Hcol) as Hin. unfold unit_price_column in Hin at 2.
  apply in_map_iff in Hin as [c [Hc Hin]]. rewrite <- Hc.
  apply in_process_data in Hin as [_ Hb]. unfold in_band in Hb.
  apply andb_true_iff in Hb as [Hb _]. now apply Qval_in_band_nonneg.
Qed.

(** X11. On the unit-price column of a non-empty result of [process_data]
    [analyze_best_range] always finds a band: it returns an interval and
    the count with it is at least 1; [int(min)] of the column is not
    negative, and the interval ends at [int(min) + step] or above, so at
    [step] at least. *)
Theorem hottest_unit_price_band (to_numeric : pystr -> float)
    (dl : list pystr) (tf : pystr) (df : list RawRecord)
    (quantile95 : list Q -> Q)
    (sort_values : list (Interval * nat) -> list (Interval * nat))
    (step : positive) :
  (forall l, Permutation l (sort_values l)) ->
  (forall l, descending (sort_values l)) ->
  process_data to_numeric dl tf df <> [] ->
  exists iv n,
    analyze_best_range quantile95 sort_values
      (unit_price_column (process_data to_numeric dl tf df)) step
    = (Some iv, n)
    /\ (1 <= n)%nat
    /\ 0 <= lower (unit_price_column (process_data to_numeric dl tf df))
    /\ lower (unit_price_column (process_data to_numeric dl tf df)) + Z.pos step
       <= hi iv
    /\ Z.pos step <= hi iv.
Proof.
  intros Hperm Hdesc Hne.
  destruct (unit_price_column_min_nonneg to_numeric dl tf df Hne) as [Hcol Hmin].
  destruct (best_count_pos quantile95 sort_values Hperm Hdesc _ step Hcol Hmin)
    as [iv [n [Hres [Hn [Hlo Hhi]]]]].
  exists iv, n. split; [exact Hres|]. split; [exact Hn|].
  split; [exact Hlo|]. split; [exact Hhi|lia].
Qed.

Lemma hottest_unit_price_band_witness :
  exists iv n,
    analyze_best_range quantile_linear sort_desc_stable
      (unit_price_column
         (process_data to_numeric_digits [] tok_all [scenario_row; douliu_row])) 5
    = (Some iv, n)
    /\ (1 <= n)%nat
    /\ 0 <= lower (unit_price_column
                     (process_data to_numeric_digits [] tok_all
                        [scenario_row; douliu_row]))
    /\ lower (unit_price_column
                (process_data to_numeric_digits [] tok_all
                   [scenario_row; douliu_row])) + 5
       <= hi iv
    /\ 5 <= hi iv.
Proof.
  apply (hottest_unit_price_band to_numeric_digits [] tok_all
           [scenario_row; douliu_row] quantile_linear sort_desc_stable 5
           sort_desc_stable_perm sort_desc_stable_descending).
  vm_compute. discriminate.
Defined.

(* ================================================================== *)
(** * The age classes *)

Lemma Qltb_inject_Z (a b : Z) : Qltb (inject_Z a) (inject_Z b) = (a <? b).
Proof.
  apply eq_true_iff_eq. now rewrite Qltb_lt, <- Zlt_Qlt, Z.ltb_lt.
Qed.

Lemma calc_age_nonneg (b : cell) (ty : Z) : 0 <= calc_age b ty.
Proof.
  unfold calc_age. destruct b as [s|]; [|lia].
  destruct (List.length s <? 3)%nat; [lia|].
  destruct (py_int (drop_last4 s)); lia.
Qed.

Lemma age_class_cases (age : Z) :
  age_class age
  = if age <=? -1 then None
    else if age <=? 5 then Some NewHouse
    else if age <=? 20 then Some SecondHand
    else if age <=? 100 then Some OldHouse
    else None.
Proof.
  unfold age_class, cut_right, searchsorted_left, age_bins.
  cbn [filter]. rewrite !Qltb_inject_Z.
  destruct (Z.ltb_spec (-1) age), (Z.ltb_spec 5 age), (Z.ltb_spec 20 age),
    (Z.ltb_spec 100 age);
    destruct (Z.leb_spec age (-1)), (Z.leb_spec age 5), (Z.leb_spec age 20),
    (Z.leb_spec age 100); try lia; reflexivity.
Qed.

(** X12. The age classes of the report are 0 to 5, above 5 to 20 and above
    20 to 100: an age above 100 gets no class, whatever the label of the
    last one says.  Every row [process_data] returns has an age of 0 or
    more, so it is left without a class exactly when its age is above
    100. *)
Theorem age_class_upto_100 (to_numeric : pystr -> float) (dl : list pystr)
    (tf : pystr) (df : list RawRecord) (c : CleanRecord) :
  In c (process_data to_numeric dl tf df) ->
  0 <= building_age c
  /\ (building_age c <= 5 <-> age_class (building_age c) = Some NewHouse)
  /\ (5 < building_age c <= 20 <-> age_class (building_age c) = Some SecondHand)
  /\ (20 < building_age c <= 100 <-> age_class (building_age c) = Some OldHouse)
  /\ (100 < building_age c <-> age_class (building_age c) = None).
Proof.
  intros Hin. apply in_process_data_row in Hin as [r [_ Hc]].
  apply process_row_raw in Hc as [_ [_ [_ [Hc _]]]].
  apply clean_row_fields in Hc as [_ [_ Ha]].
  pose proof (calc_age_nonneg (build_date r) (transaction_year c)) as H0.
  rewrite <- Ha in H0. split; [exact H0|].
  rewrite age_class_cases.
  destruct (Z.leb_spec (building_age c) (-1)); [lia|].
  destruct (Z.leb_spec (building_age c) 5);
    [repeat split; intros; try lia; try discriminate; reflexivity|].
  destruct (Z.leb_spec (building_age c) 20);
    [repeat split; intros; try lia; try discriminate; reflexivity|].
  destruct (Z.leb_spec (building_age c) 100);
    repeat split; intros; try lia; try discriminate; reflexivity.
Qed.

Lemma age_class_upto_100_witness :
  100 < 104 <-> age_class 104 = None.
Proof.
  refine (proj2 (proj2 (proj2 (proj2
    (age_class_upto_100 to_numeric_digits [] tok_all [short_completion_row]
       (add_age (derive to_numeric_digits short_completion_row, 2024)) _))))).
  vm_compute. left. reflexivity.
Defined.

(* ================================================================== *)
(** * The monthly trend *)

(** ** The order on keys *)

Lemma pystr_compare_eq (a b : pystr) : pystr_compare a b = Eq -> a = b.
Proof.
  revert b. induction a as [|x a IH]; intros [|y b]; cbn; try discriminate;
    [reflexivity|].
  destruct (x ?= y)%N eqn:E; try discriminate.
  apply N.compare_eq in E. intros H. f_equal; auto.
Qed.

Lemma pystr_compare_refl (a : pystr) : pystr_compare a a = Eq.
Proof.
  induction a as [|x a IH]; [reflexivity|]. cbn. now rewrite N.compare_refl.
Qed.

Lemma pystr_compare_antisym (a b : pystr) :
  pystr_compare b a = CompOpp (pystr_compare a b).
Proof.
  revert b. induction a as [|x a IH]; intros [|y b]; cbn; try reflexivity.
  rewrite (N.compare_antisym x y).
  destruct (x ?= y)%N; cbn; auto.
Qed.

Lemma key_lt_trans (a b c : pystr) : key_lt a b -> key_lt b c -> key_lt a c.
Proof.
  unfold key_lt. revert b c.
  induction a as [|x a IH]; intros [|y b] [|z c]; cbn; try discriminate;
    try reflexivity.
  destruct (x ?= y)%N eqn:E1; try discriminate;
    destruct (y ?= z)%N eqn:E2; try discriminate; intros H1 H2.
  - apply N.compare_eq in E1, E2. subst. rewrite N.compare_refl. eauto.
  - apply N.compare_eq in E1. subst. now rewrite E2.
  - apply N.compare_eq in E2. subst. now rewrite E1.
  - rewrite N.compare_lt_iff in E1, E2.
    assert (E : (x ?= z)%N = Lt) by (apply N.compare_lt_iff; lia).
    now rewrite E.
Qed.

Lemma key_lt_irrefl (a : pystr) : ~ key_lt a a.
Proof. unfold key_lt. rewrite pystr_compare_refl. discriminate. Qed.

(** ** The keys *)

Lemma insert_key_in (k : pystr) (l : list pystr) (x : pystr) :
  In x (insert_key k l) <-> x = k \/ In x l.
Proof.
  induction l as [|h t IH]; cbn.
  - split; intros [H|H]; auto.
  - destruct (pystr_compare k h) eqn:E; cbn.
    + apply pystr_compare_eq in E. subst h. split; [auto|].
      intros [->|H]; auto.
    + split; intros [H|H]; auto.
    + rewrite IH. split; intros [H|[H|H]]; auto.
Qed.

Lemma insert_key_sorted (k : pystr) (l : list pystr) :
  StronglySorted key_lt l -> StronglySorted key_lt (insert_key k l).
Proof.
  induction 1 as [|h t Hs IH Hh]; cbn.
  - repeat constructor.
  - destruct (pystr_compare k h) eqn:E.
    + now constructor.
    + constructor; [now constructor|]. constructor; [exact E|].
      eapply Forall_impl; [|exact Hh]. intros x Hx.
      eapply key_lt_trans; eassumption.
    + constructor; [exact IH|]. apply Forall_forall. intros x Hx.
      apply insert_key_in in Hx as [->|Hx].
      * unfold key_lt. rewrite pystr_compare_antisym, E. reflexivity.
      * rewrite Forall_forall in Hh. now apply Hh.
Qed.

Lemma group_keys_sorted (df : list CleanRecord) :
  StronglySorted key_lt (group_keys df).
Proof.
  induction df as [|c df IH]; cbn; [constructor|].
  destruct (period_key c); [now apply insert_key_sorted|exact IH].
Qed.

Lemma group_keys_in (df : list CleanRecord) (k : pystr) :
  In k (group_keys df) <-> exists c, In c df /\ period_key c = Some k.
Proof.
  induction df as [|c df IH]; cbn.
  - split; [intros []|intros [c [[] _]]].
  - destruct (period_key c) as [k'|] eqn:E.
    + rewrite insert_key_in, IH. split.
      * intros [->|[c' [H1 H2]]]; eauto.
      * intros [c' [[<-|H1] H2]]; [left; congruence|right; eauto].
    + rewrite IH. split.
      * intros [c' [H1 H2]]; eauto.
      * intros [c' [[<-|H1] H2]]; [congruence|eauto].
Qed.

Lemma sorted_keys_nodup (l : list pystr) : StronglySorted key_lt l -> NoDup l.
Proof.
  induction 1 as [|h t Hs IH Hh]; constructor; [|exact IH].
  intros Hin. rewrite Forall_forall in Hh.
  exact (key_lt_irrefl h (Hh h Hin)).
Qed.

(** ** Every row is counted in one group *)

Lemma list_sum_map_add {A : Type} (f g : A -> nat) (l : list A) :
  list_sum (map (fun a => f a + g a)%nat l)
  = (list_sum (map f l) + list_sum (map g l))%nat.
Proof.
  induction l as [|a l IH]; [reflexivity|].
  cbn [map]. change (list_sum (?x :: ?r)) with (x + list_sum r)%nat. lia.
Qed.

Lemma sum_cons (x : nat) (r : list nat) : list_sum (x :: r) = (x + list_sum r)%nat.
Proof. reflexivity. Qed.

Lemma one_key_matches (k0 : pystr) (ks : list pystr) :
  NoDup ks -> In k0 ks ->
  list_sum (map (fun k => if PyStr.eqb k0 k then 1 else 0)%nat ks) = 1%nat.
Proof.
  induction 1 as [|h t Hh Hnd IH]; intros Hin; [destruct Hin|].
  cbn [map]. rewrite sum_cons. destruct (PyStr.eqb k0 h) eqn:E.
  - apply pystr_eqb_eq in E. subst h.
    assert (Hz : list_sum (map (fun k => if PyStr.eqb k0 k then 1 else 0)%nat t)
                 = 0%nat).
    { clear IH Hnd Hin. induction t as [|x t IHt]; [reflexivity|].
      cbn [map]. rewrite sum_cons. destruct (PyStr.eqb k0 x) eqn:Ex.
      - apply pystr_eqb_eq in Ex. subst x. exfalso. apply Hh. now left.
      - rewrite IHt; [reflexivity|]. intros H. apply Hh. now right. }
    rewrite Hz. reflexivity.
  - destruct Hin as [->|Hin].
    + assert (PyStr.eqb k0 k0 = true) by now apply pystr_eqb_eq. congruence.
    + rewrite IH by exact Hin. reflexivity.
Qed.

Lemma group_sizes_sum (ks : list pystr) (df : list CleanRecord) :
  NoDup ks ->
  (forall c, In c df -> exists k, period_key c = Some k /\ In k ks) ->
  list_sum (map (fun k => List.length (filter (in_group k) df)) ks)
  = List.length df.
Proof.
  intros Hnd. induction df as [|c df IH]; intros Hk.
  - cbn [filter List.length]. clear. induction ks as [|k ks IHk]; [reflexivity|].
    cbn [map]. rewrite sum_cons. exact IHk.
  - destruct (Hk c (or_introl eq_refl)) as [k0 [Hc Hin]].
    rewrite (map_ext _ (fun k => (if PyStr.eqb k0 k then 1 else 0)
                                 + List.length (filter (in_group k) df))%nat).
    + rewrite list_sum_map_add, one_key_matches by assumption.
      rewrite IH; [reflexivity|]. intros c' Hc'. apply Hk. now right.
    + intros k. cbn [filter]. unfold in_group at 1. rewrite Hc.
      now destruct (PyStr.eqb k0 k).
Qed.

Lemma count_notna_all (col : list float) :
  (forall x, In x col -> isnan x = false) -> count_notna col = List.length col.
Proof.
  unfold count_notna. induction col as [|x col IH]; intros H; [reflexivity|].
  cbn [filter]. rewrite (H x (or_introl eq_refl)). cbn.
  f_equal. apply IH. intros y Hy. apply H. now right.
Qed.

Lemma sorted_map {A B : Type} (R : A -> A -> Prop) (R' : B -> B -> Prop)
    (f : A -> B) (l : list A) :
  (forall a b, R a b -> R' (f a) (f b)) ->
  StronglySorted R l -> StronglySorted R' (map f l).
Proof.
  intros Hf. induction 1 as [|a l Hs IH Ha]; cbn; constructor; [exact IH|].
  apply Forall_map. eapply Forall_impl; [|exact Ha]. intros b. apply Hf.
Qed.

(** The rows [process_data] returns all have a month and a total price
    that is not NaN. *)
Lemma clean_rows_have_key (to_numeric : pystr -> float) (dl : list pystr)
    (tf : pystr) (df : list RawRecord) (c : CleanRecord) :
  In c (process_data to_numeric dl tf df) ->
  (exists k, period_key c = Some k)
  /\ isnan (total_price_major (derived c)) = false.
Proof.
  intros Hin. apply in_process_data_row in Hin as [r [_ Hc]].
  apply process_row_raw in Hc as [_ [Hr [_ [Hc _]]]].
  apply clean_row_fields in Hc as [Hd [Hy _]]. split.
  - unfold period_key. rewrite Hr.
    destruct (trade_date r) as [s|]; [cbn; eauto|discriminate].
  - rewrite Hd. cbn [derive total_price_major].
    apply div_finite_not_nan, coerce_not_nan.
Qed.

(** X13. The trend of a result of [process_data] lists the months in
    strictly ascending order, so each month once; a month is listed only if
    some row falls in it, and its count is then at least 1; and the counts
    add up to the number of rows: no row is lost and none is counted
    twice. *)
Theorem trend_counts (to_numeric : pystr -> float) (dl : list pystr)
    (tf : pystr) (df : list RawRecord) (mean : list float -> float) :
  let clean := process_data to_numeric dl tf df in
  let t := trend mean clean in
  StronglySorted (fun a b => key_lt (fst (fst a)) (fst (fst b))) t
  /\ (forall k m n, In (k, m, n) t ->
        (1 <= n)%nat
        /\ n = List.length (filter (in_group k) clean)
        /\ exists c, In c clean /\ period_key c = Some k)
  /\ list_sum (map snd t) = List.length clean.
Proof.
  intros clean t. subst t. unfold trend.
  assert (Hcount : forall k,
             count_notna (map (fun c => total_price_major (derived c))
                            (filter (in_group k) clean))
             = List.length (filter (in_group k) clean)).
  { intros k. rewrite count_notna_all, length_map; [reflexivity|].
    intros x Hx. apply in_map_iff in Hx as [c [<- Hc]].
    apply filter_In in Hc as [Hc _].
    now apply (clean_rows_have_key to_numeric dl tf df). }
  split; [|split].
  - eapply sorted_map; [|apply group_keys_sorted]. intros a b H. exact H.
  - intros k m n Hin. apply in_map_iff in Hin as [k' [E Hk]].
    inversion E; subst k' m n. clear E. rewrite Hcount.
    apply group_keys_in in Hk as [c [Hc Hkey]].
    split; [|split; [reflexivity|eauto]].
    apply (filter_length_pos _ _ c); [exact Hc|].
    unfold in_group. rewrite Hkey. now apply pystr_eqb_eq.
  - rewrite map_map. cbn [snd].
    rewrite (map_ext _ (fun k => List.length (filter (in_group k) clean)))
      by exact Hcount.
    apply group_sizes_sum; [apply sorted_keys_nodup, group_keys_sorted|].
    intros c Hc.
    destruct (clean_rows_have_key to_numeric dl tf df c Hc) as [[k Hk] _].
    exists k. split; [exact Hk|]. apply group_keys_in. eauto.
Qed.

(* ================================================================== *)
(** * The archive member of a city *)

Lemma dict_get_in (d : list (pystr * pystr)) (k v : pystr) :
  dict_get d k = Some v -> In (k, v) d.
Proof.
  induction d as [|[k' v'] d IH]; cbn; [discriminate|].
  destruct (PyStr.eqb k k') eqn:E.
  - apply pystr_eqb_eq in E. intros H. inversion H; subst. now left.
  - intros H. right. now apply IH.
Qed.

Lemma nodup_values_inj (d : list (pystr * pystr)) (k1 k2 v : pystr) :
  NoDup (map snd d) -> In (k1, v) d -> In (k2, v) d -> k1 = k2.
Proof.
  induction d as [|[k' v'] d IH]; cbn; [intros _ []|].
  intros Hnd H1 H2. inversion Hnd as [|? ? Hv Hnd']; subst.
  destruct H1 as [H1|H1], H2 as [H2|H2].
  - congruence.
  - inversion H1; subst. exfalso. apply Hv.
    change v with (snd (k2, v)). now apply in_map.
  - inversion H2; subst. exfalso. apply Hv.
    change v with (snd (k1, v)). now apply in_map.
  - now apply IH.
Qed.

Lemma CITY_CODE_values_nodup : NoDup (map snd CITY_CODE).
Proof.
  cbn [CITY_CODE map snd].
  repeat (constructor;
          [cbn; intros H;
           repeat (destruct H as [H|H]; [discriminate H|]); exact H|]).
  constructor.
Qed.

(** X14. No two cities of [CITY_CODE] share a code, so two different
    cities never read the same member of the archive. *)
Theorem city_members_distinct (city1 city2 char1 char2 : pystr) :
  dict_get CITY_CODE city1 = Some char1 ->
  dict_get CITY_CODE city2 = Some char2 ->
  member_name char1 = member_name char2 ->
  city1 = city2.
Proof.
  intros H1 H2 Hm. unfold member_name in Hm. apply app_inv_tail in Hm.
  subst char2. apply dict_get_in in H1, H2.
  exact (nodup_values_inj CITY_CODE city1 city2 char1
           CITY_CODE_values_nodup H1 H2).
Qed.

Lemma city_members_distinct_witness : tok_yunlin = tok_yunlin.
Proof.
  apply (city_members_distinct tok_yunlin tok_yunlin (lit "P") (lit "P"));
    reflexivity.
Defined.

(* ================================================================== *)
(** * Rows without usable numbers *)

Lemma coerce_finite_usable (to_numeric : pystr -> float) (c : cell)
    (sign : bool) (m : positive) (e : Z) :
  coerce to_numeric c = S754_finite sign m e -> usable_number to_numeric c.
Proof.
  unfold coerce, fillna0, to_numeric_cell, usable_number.
  destruct c as [s|]; [|discriminate].
  destruct (to_numeric s) as [s0|s0| |s0 m0 e0] eqn:E; cbn; try discriminate.
  intros _. exists s, s0, m0, e0. split; [reflexivity|exact E].
Qed.

Lemma mul_finite_inv (x y : float) (sign : bool) (m : positive) (e : Z) :
  F64.mul x y = S754_finite sign m e ->
  exists sx mx ex, x = S754_finite sx mx ex.
Proof.
  destruct x as [sx|sx| |sx mx ex]; [| | |eauto];
    destruct y as [sy|sy| |sy my ey]; cbn; discriminate.
Qed.

Lemma div_finite_inv (x y : float) (sign : bool) (m : positive) (e : Z) :
  F64.div x y = S754_finite sign m e ->
  exists sx mx ex, x = S754_finite sx mx ex.
Proof.
  destruct x as [sx|sx| |sx mx ex]; [| | |eauto];
    destruct y as [sy|sy| |sy my ey]; cbn; discriminate.
Qed.

(** X16. A row is returned only if its total price is a text read as a
    finite number other than zero, and so is its building area or its land
    area: a row whose total price is missing, unreadable or zero, or whose
    two areas both are, is dropped rather than kept with a 0. *)
Theorem kept_rows_have_numbers (to_numeric : pystr -> float) (dl : list pystr)
    (tf : pystr) (df : list RawRecord) (c : CleanRecord) :
  In c (process_data to_numeric dl tf df) ->
  usable_number to_numeric (total_price_txt (raw (derived c)))
  /\ (usable_number to_numeric (building_area_txt (raw (derived c)))
      \/ usable_number to_numeric (land_area_txt (raw (derived c)))).
Proof.
  intros Hin. apply in_process_data_row in Hin as [r [_ Hc]].
  apply process_row_raw in Hc as [_ [Hr [_ [Hc Hb]]]].
  apply clean_row_fields in Hc as [Hd _].
  unfold in_band in Hb. apply andb_true_iff in Hb as [Hb _].
  rewrite Hr. rewrite Hd in Hb.
  cbn [derive unit_price] in Hb.
  apply in_band_quotient in Hb as [s [mp [ep [ma [ea [Hp [Ha _]]]]]]].
  split.
  - apply div_finite_inv in Hp as [sx [mx [ex Hx]]].
    eapply coerce_finite_usable; eassumption.
  - unfold calc_area_units in Ha.
    destruct (mask_land _).
    + right. apply mul_finite_inv in Ha as [sx [mx [ex Hx]]].
      eapply coerce_finite_usable; eassumption.
    + left. apply mul_finite_inv in Ha as [sx [mx [ex Hx]]].
      eapply coerce_finite_usable; eassumption.
Qed.

Lemma kept_rows_have_numbers_witness :
  usable_number to_numeric_digits (total_price_txt (raw (derived scenario_clean))).
Proof.
  refine (proj1 (kept_rows_have_numbers to_numeric_digits [] tok_all
                   [scenario_row] scenario_clean _)).
  vm_compute. left. reflexivity.
Defined.
